(** * Lichess annual statistics: the streaming aggregation of [fetch_game_stats]

    A shallow embedding of [src/lichess_annual_stats.py], function
    [fetch_game_stats]: the loop over the lines of the HTTP response, the
    statistics dictionary it fills, and the pass over the two buffers
    ([timeline], [timestamps]) that follows the loop.

    Conventions.
    - Python integers are [Z]; [bool] is a subclass of [int] in Python, so a
      JSON [true]/[false] that passes [isinstance(x, int)] is carried as
      1/0 (Python's [True == 1]).
    - Strings are byte strings (UTF-8).  [str.lower] is embedded on ASCII
      strings; a non-ASCII string yields [Unmodelled].
    - An uncaught Python exception is [Raise]; it leaves [fetch_game_stats]
      (the handlers of the function only catch [HTTPError]/[URLError]).
    - [Unmodelled] marks inputs whose Python behaviour is not embedded
      (Unicode case tables, [str()] of floats and containers, ordering of
      sort keys that are not integers).  No theorem speaks about them. *)

From Stdlib Require Import ZArith List String Ascii Lia Permutation Sorted.
From stdpp Require Import base list gmap strings fin_maps pretty sorting.

Local Open Scope Z_scope.

(** ** Results of partial computations *)

(** The exceptions the loop body can let escape.  [DateError] stands for
    what [datetime.fromtimestamp] raises on a timestamp outside its range
    ([ValueError], [OverflowError] or [OSError], by size and platform);
    [RecursionError] and [ValueError] are what [json.loads] raises on a
    document nested too deeply and on an integer of too many digits. *)
Inductive exn :=
| AttributeError | TypeError | ValueError | DateError | RecursionError.

Inductive result (A : Type) :=
| Ok (a : A)
| Raise (e : exn)
| Unmodelled.
Arguments Ok {A} a.
Arguments Raise {A} e.
Arguments Unmodelled {A}.

#[global] Instance result_bind : MBind result := λ A B k c,
  match c with
  | Ok a => k a
  | Raise e => Raise e
  | Unmodelled => Unmodelled
  end.

#[global] Instance result_fmap : FMap result := λ A B f c,
  match c with
  | Ok a => Ok (f a)
  | Raise e => Raise e
  | Unmodelled => Unmodelled
  end.

(** ** JSON values as [json.loads] returns them *)

Inductive pyfloat := FFinite (m e : Z) | FInf (neg : bool) | FNan.

#[warnings="-register-all"]
Inductive json :=
| JNull
| JBool (b : bool)
| JInt (z : Z)
| JFloat (f : pyfloat)
| JStr (s : string)
| JArr (l : list json)
| JObj (kvs : list (string * json)).

(** A JSON object becomes a [dict]; of two members with one name the later
    one wins. *)
Fixpoint obj_get (k : string) (kvs : list (string * json)) : option json :=
  match kvs with
  | [] => None
  | (k', v) :: r =>
      match obj_get k r with
      | Some v' => Some v'
      | None => if String.eqb k k' then Some v else None
      end
  end.

(** [d.get(k, default)]; anything but a dict has no [get]. *)
Definition dict_get (d : json) (k : string) (default : json) : result json :=
  match d with
  | JObj kvs => Ok (match obj_get k kvs with Some v => v | None => default end)
  | _ => Raise AttributeError
  end.

Definition float_truthy (f : pyfloat) : bool :=
  match f with
  | FFinite m _ => negb (m =? 0)
  | _ => true
  end.

(** Python truth value. *)
Definition truthy (j : json) : bool :=
  match j with
  | JNull => false
  | JBool b => b
  | JInt z => negb (z =? 0)
  | JFloat f => float_truthy f
  | JStr s => negb (String.eqb s "")
  | JArr l => match l with [] => false | _ => true end
  | JObj kvs => match kvs with [] => false | _ => true end
  end.

(** [a or b] *)
Definition py_or (a b : json) : json := if truthy a then a else b.

(** [isinstance(x, int)], with the integer it stands for. *)
Definition as_int (j : json) : option Z :=
  match j with
  | JInt z => Some z
  | JBool b => Some (if b then 1 else 0)
  | _ => None
  end.

(** [x == s] for a string literal [s]. *)
Definition eq_str (j : json) (s : string) : bool :=
  match j with
  | JStr s' => String.eqb s' s
  | _ => false
  end.

(** ** Strings *)

Definition is_ascii (c : ascii) : bool := (N_of_ascii c <? 128)%N.

Definition lower_ascii (c : ascii) : ascii :=
  let n := N_of_ascii c in
  if ((65 <=? n) && (n <=? 90))%N then ascii_of_N (n + 32) else c.

Fixpoint string_forallb (p : ascii → bool) (s : string) : bool :=
  match s with
  | EmptyString => true
  | String c r => p c && string_forallb p r
  end.

Fixpoint string_map (f : ascii → ascii) (s : string) : string :=
  match s with
  | EmptyString => EmptyString
  | String c r => String (f c) (string_map f r)
  end.

(** [s.lower()] *)
Definition str_lower (s : string) : result string :=
  if string_forallb is_ascii s then Ok (string_map lower_ascii s) else Unmodelled.

(** [str(x)] *)
Definition py_str (j : json) : result string :=
  match j with
  | JStr s => Ok s
  | JNull => Ok "None"%string
  | JBool true => Ok "True"%string
  | JBool false => Ok "False"%string
  | JInt z => Ok (pretty z)
  | JFloat _ | JArr _ | JObj _ => Unmodelled
  end.

(** [bytes.strip()] removes ASCII white space: space, \t, \n, \v, \f, \r. *)
Definition is_space (c : ascii) : bool :=
  let n := N_of_ascii c in
  ((n =? 32) || ((9 <=? n) && (n <=? 13)))%N.

(** [not raw_line.strip()] *)
Definition is_blank (raw : string) : bool := string_forallb is_space raw.

(** ** UTC calendar fields of a millisecond timestamp

    [dt.datetime.fromtimestamp(ts / 1000, dt.timezone.utc)]: the date of
    the proleptic Gregorian calendar; years outside 1..9999 raise. *)

Record datetime := { month : Z; weekday : Z; hour : Z }.

Definition min_ms : Z := -62135596800000.  (* 0001-01-01T00:00:00Z *)
Definition max_ms : Z := 253402300799999.  (* 9999-12-31T23:59:59.999Z *)

(** Day of the year counted from 1 March, from the day of the 400-year era. *)
Definition day_of_year_from_march (doe : Z) : Z :=
  let yoe := (doe - doe / 1460 + doe / 36524 - doe / 146096) / 365 in
  doe - (365 * yoe + yoe / 4 - yoe / 100).

Definition month_of_days (days : Z) : Z :=
  let doe := (days + 719468) mod 146097 in
  let mp := (5 * day_of_year_from_march doe + 2) / 153 in
  if mp <? 10 then mp + 3 else mp - 9.

Definition utc_fields (ts : Z) : result datetime :=
  if (min_ms <=? ts) && (ts <=? max_ms) then
    let secs := ts / 1000 in
    let days := secs / 86400 in
    Ok {| month := month_of_days days;
          weekday := (days + 3) mod 7;      (* 1970-01-01 was a Thursday *)
          hour := (secs mod 86400) / 3600 |}
  else Raise DateError.


(** ** The statistics dictionary and the two buffers *)

Inductive color := White | Black.
Inductive outcome := Win | Loss | Draw.

Record wld := { win : Z; loss : Z; draw : Z }.
Record by_color := { white : wld; black : wld }.
Record sum_count := { r_sum : Z; r_count : Z }.

(** One retained win: [(rating, name, game_id)]. *)
Definition entry : Type := Z * json * json.
Definition rating_of (e : entry) : Z := e.1.1.

Record stats := {
  total : Z;
  speed_counts : gmap string Z;
  other_speeds : Z;
  results : wld;
  color_results : by_color;
  endings : gmap string Z;
  timeout_wins : Z;
  timeout_losses : Z;
  opponent_rating_sum : Z;
  opponent_rating_count : Z;
  opponent_by_speed : gmap string sum_count;
  opponent_hist : gmap Z Z;
  top_wins : list entry;
  month_counts : list Z;
  wday_counts : list Z;
  hour_counts : list Z;
  longest_win_streak : Z;
  longest_loss_streak : Z;
  longest_gap_ms : Z
}.

(** The local state of the loop: [stats], [timeline], [timestamps]. *)
Record loop_state := {
  st : stats;
  timeline : list (json * outcome);
  timestamps : list Z
}.

Definition zero_wld : wld := {| win := 0; loss := 0; draw := 0 |}.
Definition zero_sc : sum_count := {| r_sum := 0; r_count := 0 |}.

Definition speed_names : list string := ["bullet"; "blitz"; "rapid"; "classical"].
Definition ending_names : list string :=
  ["mate"; "resign"; "stalemate"; "timeout"; "outoftime"; "aborted"; "draw"; "other"].

Definition init_stats : stats := {|
  total := 0;
  speed_counts := list_to_map ((λ k, (k, 0)) <$> speed_names);
  other_speeds := 0;
  results := zero_wld;
  color_results := {| white := zero_wld; black := zero_wld |};
  endings := list_to_map ((λ k, (k, 0)) <$> ending_names);
  timeout_wins := 0;
  timeout_losses := 0;
  opponent_rating_sum := 0;
  opponent_rating_count := 0;
  opponent_by_speed := list_to_map ((λ k, (k, zero_sc)) <$> speed_names);
  opponent_hist := ∅;
  top_wins := [];
  month_counts := replicate 12 0;
  wday_counts := replicate 7 0;
  hour_counts := replicate 24 0;
  longest_win_streak := 0;
  longest_loss_streak := 0;
  longest_gap_ms := 0
|}.

Definition init_state : loop_state :=
  {| st := init_stats; timeline := []; timestamps := [] |}.

(** ** What the loop body reads from one game *)

(** The local variables of the loop body after line 136 of the source, and
    the opponent's data read in lines 174-187. *)
Record locals := {
  ts : json;
  dt_obj : option (Z * datetime);  (* the int [ts] stands for, and its calendar fields *)
  speed : json;
  user_color : option color;
  status : string;
  winner : json;
  opp_rating : json;
  opp_name : json;
  game_id : json
}.

(** Only hashable values can be looked up in a dict. *)
Definition hashable (j : json) : bool :=
  match j with
  | JArr _ | JObj _ => false
  | _ => true
  end.

(** [(p.get("user") or {}).get("id", "").lower()] *)
Definition player_id (p : json) : result string :=
  user ← dict_get p "user" JNull;
  id ← dict_get (py_or user (JObj [])) "id" (JStr "");
  match id with
  | JStr s => str_lower s
  | _ => Raise AttributeError
  end.

Definition read_game (username_lower : string) (game : json) : result locals :=
  created ← dict_get game "createdAt" JNull;
  last ← dict_get game "lastMoveAt" JNull;
  let ts := py_or created last in
  dt_obj ← match as_int ts with
           | Some n => d ← utc_fields n; Ok (Some (n, d))
           | None => Ok None
           end;
  speed ← dict_get game "speed" JNull;
  _ ← (if hashable speed then Ok () else Raise TypeError);
  players ← dict_get game "players" (JObj []);
  white ← dict_get players "white" (JObj []);
  black ← dict_get players "black" (JObj []);
  white_id ← player_id white;
  black_id ← player_id black;
  let user_color :=
    if String.eqb white_id username_lower then Some White
    else if String.eqb black_id username_lower then Some Black
    else None in
  status_value ← dict_get game "status" (JStr "");
  status_str ← py_str status_value;
  status ← str_lower status_str;
  winner ← dict_get game "winner" JNull;
  let opp_player :=
    match user_color with
    | Some White => black
    | Some Black => white
    | None => JObj []
    end in
  opp_rating ← dict_get opp_player "rating" JNull;
  opp_user ← dict_get opp_player "user" JNull;
  name ← dict_get (py_or opp_user (JObj [])) "name" JNull;
  game_id ← dict_get game "id" JNull;
  Ok {| ts := ts; dt_obj := dt_obj; speed := speed; user_color := user_color;
        status := status; winner := winner; opp_rating := opp_rating;
        opp_name := py_or name (JStr "?"); game_id := game_id |}.

(** ** Outcome from the subject's point of view *)

Definition color_name (c : color) : string :=
  match c with White => "white" | Black => "black" end.

Definition draw_statuses : list string :=
  ["draw"; "stalemate"; "repetition"; "50move"; "timevsinsufficientmaterial";
   "insufficientmaterial"; "agreed"].

Definition is_draw_status (status : string) : bool :=
  bool_decide (status ∈ draw_statuses).

Definition is_none (j : json) : bool :=
  match j with JNull => true | _ => false end.

Definition derive_outcome (c : color) (winner : json) (status : string) : outcome :=
  if eq_str winner (color_name c) then Win
  else if eq_str winner "white" || eq_str winner "black" then Loss
  else if is_draw_status status || is_none winner then Draw
  else Draw.

(** [outcome] stays [None] when the subject is neither player. *)
Definition outcome_of (v : locals) : option outcome :=
  c ← user_color v; Some (derive_outcome c (winner v) (status v)).

(** ** Stable sorting, as [list.sort] does *)

Fixpoint insert_sorted {A} (le : A → A → bool) (x : A) (l : list A) : list A :=
  match l with
  | [] => [x]
  | y :: r => if le x y then x :: y :: r else y :: insert_sorted le x r
  end.

(** An element goes in front of the elements that came after it and do not
    sort strictly before it: equal keys keep their order. *)
Definition stable_sort {A} (le : A → A → bool) (l : list A) : list A :=
  foldr (insert_sorted le) [] l.

(** The order of [top_wins]: higher ratings first. *)
Definition desc (x y : entry) : bool := rating_of y <=? rating_of x.

(** [l.sort(key=lambda t: t[0], reverse=True)] on the retained wins. *)
Definition sort_desc (l : list entry) : list entry := stable_sort desc l.

(** [l.sort(key=lambda x: x[0])] on integer keys. *)
Definition sort_by_key (l : list (Z * outcome)) : list (Z * outcome) :=
  stable_sort (λ x y, x.1 <=? y.1) l.

(** [timestamps.sort()] *)
Definition sort_asc (l : list Z) : list Z := stable_sort Z.leb l.

(** ** The updates of one parsed game *)

Definition bump (o : outcome) (r : wld) : wld :=
  match o with
  | Win => {| win := win r + 1; loss := loss r; draw := draw r |}
  | Loss => {| win := win r; loss := loss r + 1; draw := draw r |}
  | Draw => {| win := win r; loss := loss r; draw := draw r + 1 |}
  end.

Definition bump_color (c : color) (o : outcome) (r : by_color) : by_color :=
  match c with
  | White => {| white := bump o (white r); black := black r |}
  | Black => {| white := white r; black := bump o (black r) |}
  end.

(** [k in d] for a dict with string keys and a hashable [k]: the key found. *)
Definition key_in {V} (d : gmap string V) (k : json) : option string :=
  match k with
  | JStr s => if bool_decide (is_Some (d !! s)) then Some s else None
  | _ => None
  end.

(** [counts[i] += 1] on a list. *)
Definition incr_at (i : Z) (counts : list Z) : list Z :=
  alter Z.succ (Z.to_nat i) counts.

(** [stats["top_wins"].append(e)], sort, and [pop()] beyond three. *)
Definition push_top_win (e : entry) (tw : list entry) : list entry :=
  let l := sort_desc (tw ++ [e]) in
  if (3 <? length l)%nat then removelast l else l.

Definition ending_key (d : gmap string Z) (status : string) : string :=
  if bool_decide (is_Some (d !! status)) then status else "other".

Definition is_flag (status : string) : bool :=
  String.eqb status "timeout" || String.eqb status "outoftime".

(** The opponent's rating when the subject is a player and the rating is an int. *)
Definition rated (v : locals) : option Z :=
  _ ← user_color v; as_int (opp_rating v).

Definition bucket (rating : Z) : Z := (rating / 100) * 100.

Definition update_stats (v : locals) (s : stats) : stats := {|
  total := total s;
  speed_counts :=
    match key_in (speed_counts s) (speed v) with
    | Some k => alter Z.succ k (speed_counts s)
    | None => speed_counts s
    end;
  other_speeds :=
    match key_in (speed_counts s) (speed v) with
    | Some _ => other_speeds s
    | None => other_speeds s + 1
    end;
  results :=
    match outcome_of v with
    | Some o => bump o (results s)
    | None => results s
    end;
  color_results :=
    match user_color v, outcome_of v with
    | Some c, Some o => bump_color c o (color_results s)
    | _, _ => color_results s
    end;
  endings :=
    if String.eqb (status v) "" then endings s
    else alter Z.succ (ending_key (endings s) (status v)) (endings s);
  timeout_wins :=
    if negb (String.eqb (status v) "") && is_flag (status v) then
      match outcome_of v with
      | Some Win => timeout_wins s + 1
      | _ => timeout_wins s
      end
    else timeout_wins s;
  timeout_losses :=
    if negb (String.eqb (status v) "") && is_flag (status v) then
      match outcome_of v with
      | Some Loss => timeout_losses s + 1
      | _ => timeout_losses s
      end
    else timeout_losses s;
  opponent_rating_sum :=
    match rated v with
    | Some r => opponent_rating_sum s + r
    | None => opponent_rating_sum s
    end;
  opponent_rating_count :=
    match rated v with
    | Some _ => opponent_rating_count s + 1
    | None => opponent_rating_count s
    end;
  opponent_by_speed :=
    match rated v, key_in (opponent_by_speed s) (speed v) with
    | Some r, Some k =>
        alter (λ c, {| r_sum := r_sum c + r; r_count := r_count c + 1 |}) k
          (opponent_by_speed s)
    | _, _ => opponent_by_speed s
    end;
  opponent_hist :=
    match rated v with
    | Some r =>
        <[bucket r := default 0 (opponent_hist s !! bucket r) + 1]> (opponent_hist s)
    | None => opponent_hist s
    end;
  top_wins :=
    match rated v, outcome_of v with
    | Some r, Some Win => push_top_win (r, opp_name v, game_id v) (top_wins s)
    | _, _ => top_wins s
    end;
  month_counts :=
    match dt_obj v with
    | Some (_, d) => incr_at (month d - 1) (month_counts s)
    | None => month_counts s
    end;
  wday_counts :=
    match dt_obj v with
    | Some (_, d) => incr_at (weekday d) (wday_counts s)
    | None => wday_counts s
    end;
  hour_counts :=
    match dt_obj v with
    | Some (_, d) => incr_at (hour d) (hour_counts s)
    | None => hour_counts s
    end;
  longest_win_streak := longest_win_streak s;
  longest_loss_streak := longest_loss_streak s;
  longest_gap_ms := longest_gap_ms s
|}.

(** [ts or 0] *)
Definition ts_or_0 (v : locals) : json := py_or (ts v) (JInt 0).

Definition update (v : locals) (s : loop_state) : loop_state := {|
  st := update_stats v (st s);
  timeline :=
    match outcome_of v with
    | Some o => timeline s ++ [(ts_or_0 v, o)]
    | None => timeline s
    end;
  timestamps :=
    match dt_obj v with
    | Some (n, _) => timestamps s ++ [n]
    | None => timestamps s
    end
|}.

(** ** The loop over the response lines *)

(** What [json.loads(raw.decode("utf-8"))] does with a raw line: it returns
    a value, it raises one of the two exceptions that line 104 catches
    ([UnicodeDecodeError], [JSONDecodeError]), or it raises another one,
    which nothing catches. *)
Inductive decoded :=
| Parsed (game : json)
| Rejected
| Escaped (e : exn).

(** What the head of the loop body makes of a raw line: skipped when blank,
    counted but dropped when decoding is rejected, a game when it returns,
    and the end of the run when it raises something else. *)
Inductive line :=
| Blank
| Malformed
| Game (game : json)
| Broken (e : exn).

(** [loads raw] stands for [json.loads(raw.decode("utf-8"))]. *)
Definition read_line (loads : string → decoded) (raw : string) : line :=
  if is_blank raw then Blank
  else match loads raw with
       | Parsed game => Game game
       | Rejected => Malformed
       | Escaped e => Broken e
       end.

Definition count_line (s : loop_state) : loop_state := {|
  st := {|
    total := total (st s) + 1;
    speed_counts := speed_counts (st s);
    other_speeds := other_speeds (st s);
    results := results (st s);
    color_results := color_results (st s);
    endings := endings (st s);
    timeout_wins := timeout_wins (st s);
    timeout_losses := timeout_losses (st s);
    opponent_rating_sum := opponent_rating_sum (st s);
    opponent_rating_count := opponent_rating_count (st s);
    opponent_by_speed := opponent_by_speed (st s);
    opponent_hist := opponent_hist (st s);
    top_wins := top_wins (st s);
    month_counts := month_counts (st s);
    wday_counts := wday_counts (st s);
    hour_counts := hour_counts (st s);
    longest_win_streak := longest_win_streak (st s);
    longest_loss_streak := longest_loss_streak (st s);
    longest_gap_ms := longest_gap_ms (st s)
  |};
  timeline := timeline s;
  timestamps := timestamps s
|}.

(** One turn of the loop body. *)
Definition ingest (username_lower : string) (l : line) (s : loop_state)
  : result loop_state :=
  match l with
  | Blank => Ok s
  | Malformed => Ok (count_line s)
  | Game game => v ← read_game username_lower game; Ok (update v (count_line s))
  | Broken e => Raise e
  end.

Fixpoint ingest_all (username_lower : string) (ls : list line) (s : loop_state)
  : result loop_state :=
  match ls with
  | [] => Ok s
  | l :: r => s' ← ingest username_lower l s; ingest_all username_lower r s'
  end.

(** ** After the loop *)

Record runs := {
  longest_win : Z; longest_loss : Z;
  current_win : Z; current_loss : Z
}.

Definition walk_step (r : runs) (o : outcome) : runs :=
  let cw := match o with Win => current_win r + 1 | _ => 0 end in
  let cl := match o with Loss => current_loss r + 1 | _ => 0 end in
  {| longest_win := Z.max (longest_win r) cw;
     longest_loss := Z.max (longest_loss r) cl;
     current_win := cw; current_loss := cl |}.

Definition walk (os : list outcome) : runs :=
  foldl walk_step
    {| longest_win := 0; longest_loss := 0; current_win := 0; current_loss := 0 |} os.

(** The sort keys of the timeline as integers, when all of them are. *)
Definition int_keys (tl : list (json * outcome)) : option (list (Z * outcome)) :=
  mapM (λ p, n ← as_int p.1; Some (n, p.2)) tl.

(** The outcomes of [timeline] after [timeline.sort(key=lambda x: x[0])].
    A list of at most one element is sorted without a comparison. *)
Definition sorted_outcomes (tl : list (json * outcome)) : result (list outcome) :=
  match int_keys tl with
  | Some l => Ok (snd <$> sort_by_key l)
  | None => if (length tl <=? 1)%nat then Ok (snd <$> tl) else Unmodelled
  end.

(** [[l[i] - l[i - 1] for i in range(1, len(l))]] *)
Fixpoint gaps (l : list Z) : list Z :=
  match l with
  | a :: (b :: _) as r => (b - a) :: gaps r
  | _ => []
  end.

(** [max(l)] *)
Definition py_max (l : list Z) : result Z :=
  match l with
  | [] => Raise ValueError
  | x :: r => Ok (foldl Z.max x r)
  end.

Definition finalize (s : loop_state) : result stats :=
  os ← sorted_outcomes (timeline s);
  gap ← (if (1 <? length (timestamps s))%nat
         then py_max (gaps (sort_asc (timestamps s)))
         else Ok (longest_gap_ms (st s)));
  Ok {|
    total := total (st s);
    speed_counts := speed_counts (st s);
    other_speeds := other_speeds (st s);
    results := results (st s);
    color_results := color_results (st s);
    endings := endings (st s);
    timeout_wins := timeout_wins (st s);
    timeout_losses := timeout_losses (st s);
    opponent_rating_sum := opponent_rating_sum (st s);
    opponent_rating_count := opponent_rating_count (st s);
    opponent_by_speed := opponent_by_speed (st s);
    opponent_hist := opponent_hist (st s);
    top_wins := top_wins (st s);
    month_counts := month_counts (st s);
    wday_counts := wday_counts (st s);
    hour_counts := hour_counts (st s);
    longest_win_streak :=
      match timeline s with
      | [] => longest_win_streak (st s)
      | _ => longest_win (walk os)
      end;
    longest_loss_streak :=
      match timeline s with
      | [] => longest_loss_streak (st s)
      | _ => longest_loss (walk os)
      end;
    longest_gap_ms := gap
  |}.

(** [fetch_game_stats(username, year, token)] on the lines of the response. *)
Definition run (username : string) (ls : list line) : result stats :=
  username_lower ← str_lower username;
  s ← ingest_all username_lower ls init_state;
  finalize s.

Definition fetch_game_stats (loads : string → decoded) (username : string)
    (response : list string) : result stats :=
  run username (read_line loads <$> response).

(** ** Sample games *)

Definition player (id : string) (rating : Z) : json :=
  JObj [("user", JObj [("id", JStr id); ("name", JStr id)]); ("rating", JInt rating)].

Definition game_of (id : string) (created : Z) (w : string) (wr : Z)
    (b : string) (br : Z) (status winner : string) : json :=
  JObj [("id", JStr id); ("createdAt", JInt created); ("speed", JStr "blitz");
        ("status", JStr status); ("winner", JStr winner);
        ("players", JObj [("white", player w wr); ("black", player b br)])].

(** ** Notions used in the statements *)

(** Insertion from the right: [x] goes behind the elements that do not sort
    strictly after it.  This is where a stable sort puts an appended element. *)
Fixpoint insert_right {A} (le : A → A → bool) (x : A) (l : list A) : list A :=
  match l with
  | [] => [x]
  | y :: r => if le y x then y :: insert_right le x r else x :: y :: r
  end.

(** Sortedness with respect to a boolean order. *)
Definition sorted_by {A} (le : A → A → bool) (l : list A) : Prop :=
  StronglySorted (λ x y, le x y = true) l.

(** The states the loop can be in. *)
Definition reachable (username_lower : string) (s : loop_state) : Prop :=
  ∃ ls, ingest_all username_lower ls init_state = Ok s.

(** The white space [bytes.strip()] removes. *)
Definition ascii_whitespace : list ascii :=
  [" "; "009"; "010"; "011"; "012"; "013"]%char.

#[global] Instance outcome_eq_dec : EqDecision outcome.
Proof. solve_decision. Defined.

#[global] Instance color_eq_dec : EqDecision color.
Proof. solve_decision. Defined.

Definition other_color (c : color) : color :=
  match c with White => Black | Black => White end.

(** [r[o]] for a results dict. *)
Definition get_count (o : outcome) (r : wld) : Z :=
  match o with Win => win r | Loss => loss r | Draw => draw r end.

(** [r[c]] for the per-colour results. *)
Definition side (c : color) (r : by_color) : wld :=
  match c with White => white r | Black => black r end.

(** Two statistics dictionaries that differ at most in [total]. *)
Definition same_but_total (a b : stats) : Prop :=
  speed_counts a = speed_counts b ∧ other_speeds a = other_speeds b ∧
  results a = results b ∧ color_results a = color_results b ∧
  endings a = endings b ∧ timeout_wins a = timeout_wins b ∧
  timeout_losses a = timeout_losses b ∧
  opponent_rating_sum a = opponent_rating_sum b ∧
  opponent_rating_count a = opponent_rating_count b ∧
  opponent_by_speed a = opponent_by_speed b ∧
  opponent_hist a = opponent_hist b ∧ top_wins a = top_wins b ∧
  month_counts a = month_counts b ∧ wday_counts a = wday_counts b ∧
  hour_counts a = hour_counts b ∧
  longest_win_streak a = longest_win_streak b ∧
  longest_loss_streak a = longest_loss_streak b ∧
  longest_gap_ms a = longest_gap_ms b.

(** Cell [i] of a histogram went up by one and nothing else changed. *)
Definition incremented_at (i : Z) (old new : list Z) : Prop :=
  0 ≤ i ∧ ∃ c, old !! Z.to_nat i = Some c ∧ new = <[Z.to_nat i := c + 1]> old.

(** The shape of the dictionary that the loop never changes: the fixed key
    sets, the histogram sizes, and the three fields written after the loop. *)
Record wf (s : stats) : Prop := {
  wf_months : length (month_counts s) = 12%nat;
  wf_wdays : length (wday_counts s) = 7%nat;
  wf_hours : length (hour_counts s) = 24%nat;
  wf_speeds : ∀ k, is_Some (speed_counts s !! k) ↔ k ∈ speed_names;
  wf_endings : ∀ k, is_Some (endings s !! k) ↔ k ∈ ending_names;
  wf_by_speed : ∀ k, is_Some (opponent_by_speed s !! k) ↔ k ∈ speed_names;
  wf_win_streak : longest_win_streak s = 0;
  wf_loss_streak : longest_loss_streak s = 0;
  wf_gap : longest_gap_ms s = 0
}.

(** A line of 1100 opening brackets: not a JSON document, and nested more
    deeply than the recursion limit of the interpreter (1000) allows. *)
Definition deep_line : string :=
  Nat.iter (Z.to_nat 1100) (String "[") EmptyString.

(** A decoder for the examples: it knows the empty object and the line of
    1100 brackets, on which [json.loads] raises [RecursionError]. *)
Definition sample_loads (raw : string) : decoded :=
  if String.eqb raw "{}" then Parsed (JObj [])
  else if String.eqb raw deep_line then Escaped RecursionError
  else Rejected.

(** Which player the subject is, from the two lower-cased ids. *)
Definition subject_color (white_id black_id username_lower : string) : option color :=
  if String.eqb white_id username_lower then Some White
  else if String.eqb black_id username_lower then Some Black
  else None.

(** A won blitz game of alice with white, and what the loop body reads from it. *)
Definition sample_game : json :=
  game_of "g1" 1736899200000 "Alice" 1500 "bob" 1610 "mate" "white".

Definition sample_locals : locals := {|
  ts := JInt 1736899200000;
  dt_obj := Some (1736899200000, {| month := 1; weekday := 2; hour := 0 |});
  speed := JStr "blitz";
  user_color := Some White;
  status := "mate";
  winner := JStr "white";
  opp_rating := JInt 1610;
  opp_name := JStr "bob";
  game_id := JStr "g1"
|}.

(** A lost game of alice with white that carries no timestamp, and what the
    loop body reads from it. *)
Definition untimed_game : json :=
  JObj [("winner", JStr "black"); ("status", JStr "resign");
        ("players", JObj [("white", player "alice" 1500);
                          ("black", player "bob" 1610)])].

Definition untimed_locals : locals := {|
  ts := JNull;
  dt_obj := None;
  speed := JNull;
  user_color := Some White;
  status := "resign";
  winner := JStr "black";
  opp_rating := JInt 1610;
  opp_name := JStr "bob";
  game_id := JNull
|}.

(** A game created at the epoch whose last move was on 1 February 1970. *)
Definition epoch_game : json :=
  JObj [("createdAt", JInt 0); ("lastMoveAt", JInt 2678400000)].

(** The walk of lines 200-211 seen for one outcome [o0]: the pair is
    (longest run, current run) of [o0]. *)
Definition run_step (o0 : outcome) (p : Z * Z) (o : outcome) : Z * Z :=
  let c := if decide (o = o0) then p.2 + 1 else 0 in (Z.max p.1 c, c).

(** [os] holds [n] consecutive [o]s. *)
Definition has_run (o : outcome) (n : nat) (os : list outcome) : Prop :=
  ∃ pre post, os = pre ++ replicate n o ++ post.

(** [n] is the length of the longest block of consecutive [o]s in [os]. *)
Definition longest_run (o : outcome) (n : Z) (os : list outcome) : Prop :=
  0 ≤ n ∧ has_run o (Z.to_nat n) os ∧ ∀ m, has_run o m os → Z.of_nat m ≤ n.

(** [g] is the largest difference of two neighbours in [l]. *)
Definition max_adjacent_gap (g : Z) (l : list Z) : Prop :=
  (∃ i a b, l !! i = Some a ∧ l !! S i = Some b ∧ g = b - a) ∧
  ∀ i a b, l !! i = Some a → l !! S i = Some b → b - a ≤ g.

(** A loop state that holds nothing but the two buffers. *)
Definition buffers (tl : list (json * outcome)) (tss : list Z) : loop_state :=
  {| st := init_stats; timeline := tl; timestamps := tss |}.

(** The outcomes of the example, out of order: the key is the position in
    the chronological order win, win, loss, win, win, win, draw, loss, loss. *)
Definition shuffled_timeline : list (json * outcome) :=
  [(JInt 7, Draw); (JInt 2, Win); (JInt 9, Loss); (JInt 1, Win); (JInt 4, Win);
   (JInt 3, Loss); (JInt 6, Win); (JInt 8, Loss); (JInt 5, Win)].

(** [init_stats] with the three fields that [finalize] writes. *)
Definition with_final (w l g : Z) : stats := {|
  total := 0;
  speed_counts := speed_counts init_stats;
  other_speeds := 0;
  results := zero_wld;
  color_results := {| white := zero_wld; black := zero_wld |};
  endings := endings init_stats;
  timeout_wins := 0;
  timeout_losses := 0;
  opponent_rating_sum := 0;
  opponent_rating_count := 0;
  opponent_by_speed := opponent_by_speed init_stats;
  opponent_hist := ∅;
  top_wins := [];
  month_counts := replicate 12 0;
  wday_counts := replicate 7 0;
  hour_counts := replicate 24 0;
  longest_win_streak := w;
  longest_loss_streak := l;
  longest_gap_ms := g
|}.

(** A game that carries a "created" timestamp and nothing else. *)
Definition stamped (created : Z) : json := JObj [("createdAt", JInt created)].

Definition gap_response : list line :=
  [Game (stamped 5000); Game (stamped 50000); Game (stamped 1000);
   Game (stamped 6000)].

(** A game of alice with white; [winner] is "white", "black" or absent. *)
Definition played (created : Z) (winner : json) : json :=
  JObj [("createdAt", JInt created); ("winner", winner);
        ("players", JObj [("white", JObj [("user", JObj [("id", JStr "alice")])])])].

(** The nine games of [shuffled_timeline], delivered in that order. *)
Definition streak_response : list line :=
  [Game (played 7 JNull); Game (played 2 (JStr "white"));
   Game (played 9 (JStr "black")); Game (played 1 (JStr "white"));
   Game (played 4 (JStr "white")); Game (played 3 (JStr "black"));
   Game (played 6 (JStr "white")); Game (played 8 (JStr "black"));
   Game (played 5 (JStr "white"))].

(** The state of the loop after a response, and the statistics returned,
    for the responses of the examples (which raise nothing). *)
Definition state_after (username_lower : string) (ls : list line) : loop_state :=
  match ingest_all username_lower ls init_state with
  | Ok s => s
  | _ => init_state
  end.

Definition stats_after (username : string) (ls : list line) : stats :=
  match run username ls with
  | Ok r => r
  | _ => init_stats
  end.

(** The entry a game adds to [top_wins]: a win over a rated opponent. *)
Definition win_entry (v : locals) : option entry :=
  match rated v, outcome_of v with
  | Some r, Some Win => Some (r, opp_name v, game_id v)
  | _, _ => None
  end.

Definition line_win (username_lower : string) (l : line) : option entry :=
  match l with
  | Game game =>
      match read_game username_lower game with
      | Ok v => win_entry v
      | _ => None
      end
  | _ => None
  end.

(** The subject's wins over rated opponents, in the order of delivery. *)
Definition wins_of (username_lower : string) (ls : list line) : list entry :=
  omap (line_win username_lower) ls.

(** Three wins of alice, over opponents rated 1500, 1700 and 1600. *)
Definition three_wins : list line :=
  [Game (game_of "g1" 1000 "alice" 1400 "bob" 1500 "mate" "white");
   Game (game_of "g2" 2000 "carl" 1700 "alice" 1400 "resign" "black");
   Game (game_of "g3" 3000 "alice" 1400 "dana" 1600 "mate" "white")].

(** ** Counting lines *)

(** A line that reaches [stats["total"] += 1]. *)
Definition is_offered (l : line) : bool :=
  match l with Blank => false | _ => true end.

Definition is_malformed (l : line) : bool :=
  match l with Malformed => true | _ => false end.

Definition is_game (l : line) : bool :=
  match l with Game _ => true | _ => false end.

(** A game in which the subject is one of the two players. *)
Definition identifies (username_lower : string) (l : line) : bool :=
  match l with
  | Game game =>
      match read_game username_lower game with
      | Ok v => bool_decide (is_Some (user_color v))
      | _ => false
      end
  | _ => false
  end.

Definition count {A} (p : A → bool) (l : list A) : Z :=
  Z.of_nat (length (List.filter p l)).

(** The same on raw lines. *)
Definition raw_offered (raw : string) : bool := negb (is_blank raw).

Definition raw_failed (loads : string → decoded) (raw : string) : bool :=
  negb (is_blank raw) && match loads raw with Rejected => true | _ => false end.

(** The sum of the four values of [speed_counts]. *)
Definition speed_sum (s : stats) : Z :=
  default 0 (speed_counts s !! "bullet") + default 0 (speed_counts s !! "blitz")
  + default 0 (speed_counts s !! "rapid")
  + default 0 (speed_counts s !! "classical").

Definition results_sum (s : stats) : Z :=
  win (results s) + loss (results s) + draw (results s).

(** A response of four raw lines for [sample_loads]: two games without
    players, a blank line and a line that is not JSON. *)
Definition sample_response : list string := ["{}"; " "; "{oops"; "{}"].

(** ** Order of delivery *)

(** The statistics that no theorem below lets depend on the order of
    delivery: every field but [top_wins] and the two streaks. *)
Record same_counts (a b : stats) : Prop := {
  sc_total : total a = total b;
  sc_speed_counts : speed_counts a = speed_counts b;
  sc_other_speeds : other_speeds a = other_speeds b;
  sc_results : results a = results b;
  sc_color_results : color_results a = color_results b;
  sc_endings : endings a = endings b;
  sc_timeout_wins : timeout_wins a = timeout_wins b;
  sc_timeout_losses : timeout_losses a = timeout_losses b;
  sc_rating_sum : opponent_rating_sum a = opponent_rating_sum b;
  sc_rating_count : opponent_rating_count a = opponent_rating_count b;
  sc_by_speed : opponent_by_speed a = opponent_by_speed b;
  sc_hist : opponent_hist a = opponent_hist b;
  sc_months : month_counts a = month_counts b;
  sc_wdays : wday_counts a = wday_counts b;
  sc_hours : hour_counts a = hour_counts b;
  sc_gap : longest_gap_ms a = longest_gap_ms b
}.

(** Two states of the loop that hold the same counters and the same
    buffers up to their order. *)
Record agree (a b : loop_state) : Prop := {
  ag_counts : same_counts (st a) (st b);
  ag_win_streak : longest_win_streak (st a) = longest_win_streak (st b);
  ag_loss_streak : longest_loss_streak (st a) = longest_loss_streak (st b);
  ag_timeline : timeline a ≡ₚ timeline b;
  ag_timestamps : timestamps a ≡ₚ timestamps b
}.

(** What a line does when the loop body raises nothing: whether it is
    counted, and the values read from it when it is a game. *)
Definition line_effect (username_lower : string) (l : line)
  : option (bool * option locals) :=
  match l with
  | Blank => Some (false, None)
  | Malformed => Some (true, None)
  | Game game =>
      match read_game username_lower game with
      | Ok v => Some (true, Some v)
      | _ => None
      end
  | Broken _ => None
  end.

Definition step (e : bool * option locals) (s : loop_state) : loop_state :=
  let s1 := if e.1 then count_line s else s in
  match e.2 with
  | Some v => update v s1
  | None => s1
  end.

(** The sort key of a game in the timeline: its timestamp, and 0 when it
    has none (or one that counts as false). *)
Definition sort_key (v : locals) : json :=
  if truthy (ts v) then ts v else JInt 0.

(** The pair a game adds to the timeline: the sort key and the outcome. *)
Definition line_record (username_lower : string) (l : line)
  : option (json * outcome) :=
  match l with
  | Game game =>
      match read_game username_lower game with
      | Ok v => o ← outcome_of v; Some (sort_key v, o)
      | _ => None
      end
  | _ => None
  end.

(** The games with an outcome, in the order of delivery. *)
Definition records_of (username_lower : string) (ls : list line)
  : list (json * outcome) :=
  omap (line_record username_lower) ls.

(** [sorted] holds the elements of [l] in the order [R] of their keys, and
    elements with one and the same key in the order they have in [l]. *)
Definition stably_sorted {A} (key : A → Z) (R : Z → Z → Prop)
    (sorted l : list A) : Prop :=
  sorted ≡ₚ l ∧
  StronglySorted (λ x y, R (key x) (key y)) sorted ∧
  ∀ k, filter (λ x, key x = k) sorted = filter (λ x, key x = k) l.

(** The elements with one and the same key come in the same order in both
    lists. *)
Definition same_order_of_ties {A} (key : A → Z) (l l' : list A) : Prop :=
  ∀ k, filter (λ x, key x = k) l' = filter (λ x, key x = k) l.

(** In a ranking, the third rating is strictly above the fourth (or there
    is no fourth). *)
Definition clear_cut (best : list entry) : Prop :=
  ∀ x y, best !! 2%nat = Some x → best !! 3%nat = Some y →
         rating_of y < rating_of x.

(** No two different entries of the list have one rating. *)
Definition untied (l : list entry) : Prop :=
  ∀ x y, x ∈ l → y ∈ l → rating_of x = rating_of y → x = y.

(** Records with one and the same sort key have one and the same outcome. *)
Definition ties_agree (l : list (Z * outcome)) : Prop :=
  ∀ x y, x ∈ l → y ∈ l → x.1 = y.1 → x.2 = y.2.

(** Four wins of alice over opponents with one and the same rating. *)
Definition win_over (id : string) (created : Z) (opponent : string) : line :=
  Game (game_of id created "alice" 1400 opponent 1500 "mate" "white").

Definition tied_wins : list line :=
  [win_over "g1" 1000 "bob"; win_over "g2" 2000 "carl";
   win_over "g3" 3000 "dana"; win_over "g4" 4000 "erin"].

Definition tied_wins_permuted : list line :=
  [win_over "g4" 4000 "erin"; win_over "g1" 1000 "bob";
   win_over "g2" 2000 "carl"; win_over "g3" 3000 "dana"].

(** Five wins of alice over opponents rated 1500, 1700, 1600, 1400 and
    1400: the two that tie are behind the third place. *)
Definition five_wins : list line :=
  [Game (game_of "g1" 1000 "alice" 1400 "bob" 1500 "mate" "white");
   Game (game_of "g2" 2000 "alice" 1400 "carl" 1700 "mate" "white");
   Game (game_of "g3" 3000 "alice" 1400 "dana" 1600 "mate" "white");
   Game (game_of "g4" 4000 "alice" 1400 "erin" 1400 "mate" "white");
   Game (game_of "g5" 5000 "alice" 1400 "finn" 1400 "mate" "white")].

(** Three games of alice that carry one and the same timestamp. *)
Definition tied_stamps : list line :=
  [Game (played 1000 (JStr "white")); Game (played 1000 (JStr "black"));
   Game (played 1000 (JStr "white"))].

Definition tied_stamps_permuted : list line :=
  [Game (played 1000 (JStr "white")); Game (played 1000 (JStr "white"));
   Game (played 1000 (JStr "black"))].

(** * The rest of the module *)

(** ** [_year_bounds_ms]

    [datetime(year, 1, 1, tzinfo=utc)] exists for the years 1..9999 and
    raises [ValueError] otherwise; its [timestamp()] is the number of days
    since 1970-01-01 times 86400, and all the values are integers that a
    float holds exactly. *)

(** [datetime._days_before_year] *)
Definition days_before_year (year : Z) : Z :=
  let y := year - 1 in
  y * 365 + y / 4 - y / 100 + y / 400.

(** [int(datetime(year, 1, 1, tzinfo=utc).timestamp() * 1000)];
    719163 is the ordinal of 1970-01-01. *)
Definition year_start_ms (year : Z) : result Z :=
  if (1 <=? year) && (year <=? 9999)
  then Ok ((days_before_year year + 1 - 719163) * 86400 * 1000)
  else Raise ValueError.

Definition _year_bounds_ms (year : Z) : result (Z * Z) :=
  since ← year_start_ms year;
  until ← year_start_ms (year + 1);
  Ok (since, until).

(** [calendar.isleap] *)
Definition is_leap (year : Z) : bool :=
  (year mod 4 =? 0) && (negb (year mod 100 =? 0) || (year mod 400 =? 0)).

Definition ms_per_day : Z := 86400000.

(** [p] holds of the [n] integers from [z] on. *)
Fixpoint all_from (n : nat) (z : Z) (p : Z → bool) : bool :=
  match n with
  | O => true
  | S m => p z && all_from m (z + 1) p
  end.

(** The first and the last millisecond of a year fall in January, hour 0,
    and in December, hour 23. *)
Definition year_ends_ok (year : Z) : bool :=
  match _year_bounds_ms year with
  | Ok (since, until) =>
      match utc_fields since, utc_fields (until - 1) with
      | Ok a, Ok b =>
          (month a =? 1) && (hour a =? 0) && (month b =? 12) && (hour b =? 23)
      | _, _ => false
      end
  | _ => false
  end.

(** ** Further notions about the statistics *)

Definition zsum (l : list Z) : Z := foldr Z.add 0 l.

(** The sum of the values of the rating histogram. *)
Definition hist_total (m : gmap Z Z) : Z := map_fold (λ _ v acc, v + acc) 0 m.

(** [sum(g(d[k]) for k in names)] over a dict with fixed keys. *)
Definition tally {V} (g : V → Z) (m : gmap string V) (names : list string) : Z :=
  zsum ((λ k, default 0 (g <$> m !! k)) <$> names).

(** The sum of the eight values of [endings]. *)
Definition endings_sum (s : stats) : Z := tally id (endings s) ending_names.

(** The sum of the four [count] values of [opponent_by_speed]. *)
Definition rated_by_speed (s : stats) : Z :=
  tally r_count (opponent_by_speed s) speed_names.

Definition ending (s : stats) (k : string) : Z := default 0 (endings s !! k).

(** A timeline entry with outcome [o]. *)
Definition has (o : outcome) (p : json * outcome) : bool := bool_decide (p.2 = o).

(** What holds between the counters and the buffers in every state of the
    loop. *)
Record consistent (s : loop_state) : Prop := {
  co_colors : ∀ o,
    get_count o (white (color_results (st s)))
    + get_count o (black (color_results (st s))) = get_count o (results (st s));
  co_timeline : ∀ o, count (has o) (timeline s) = get_count o (results (st s));
  co_months : zsum (month_counts (st s)) = Z.of_nat (length (timestamps s));
  co_wdays : zsum (wday_counts (st s)) = Z.of_nat (length (timestamps s));
  co_hours : zsum (hour_counts (st s)) = Z.of_nat (length (timestamps s));
  co_stamped : Z.of_nat (length (timestamps s)) ≤ total (st s);
  co_hist_keys : ∀ k v, opponent_hist (st s) !! k = Some v → k mod 100 = 0 ∧ 1 ≤ v;
  co_hist_total : hist_total (opponent_hist (st s)) = opponent_rating_count (st s);
  co_by_speed : 0 ≤ rated_by_speed (st s) ≤ opponent_rating_count (st s);
  co_rated : opponent_rating_count (st s) ≤ results_sum (st s);
  co_results : results_sum (st s) ≤ total (st s);
  co_endings : 0 ≤ endings_sum (st s) ≤ total (st s);
  co_flag_wins : 0 ≤ timeout_wins (st s) ≤ win (results (st s));
  co_flag_losses : 0 ≤ timeout_losses (st s) ≤ loss (results (st s));
  co_flags : timeout_wins (st s) + timeout_losses (st s)
             ≤ ending (st s) "timeout" + ending (st s) "outoftime"
}.

(** A game whose timestamp is beyond the year 9999. *)
Definition far_future_game : json := JObj [("createdAt", JInt 1000000000000000)].

(** A game whose speed is a list. *)
Definition list_speed_game : json := JObj [("speed", JArr [JStr "blitz"])].

(** Two dictionaries that differ at most in [total] and [other_speeds]. *)
Definition same_but_total_and_other (a b : stats) : Prop :=
  speed_counts a = speed_counts b ∧
  results a = results b ∧ color_results a = color_results b ∧
  endings a = endings b ∧ timeout_wins a = timeout_wins b ∧
  timeout_losses a = timeout_losses b ∧
  opponent_rating_sum a = opponent_rating_sum b ∧
  opponent_rating_count a = opponent_rating_count b ∧
  opponent_by_speed a = opponent_by_speed b ∧
  opponent_hist a = opponent_hist b ∧ top_wins a = top_wins b ∧
  month_counts a = month_counts b ∧ wday_counts a = wday_counts b ∧
  hour_counts a = hour_counts b ∧
  longest_win_streak a = longest_win_streak b ∧
  longest_loss_streak a = longest_loss_streak b ∧
  longest_gap_ms a = longest_gap_ms b.

(** The keys of a game that the loop body reads. *)
Definition read_keys : list string :=
  ["createdAt"; "lastMoveAt"; "speed"; "players"; "status"; "winner"; "id"].

(** * Properties *)

(** ** The result monad *)

Lemma bind_Ok {A B} (c : result A) (k : A → result B) (b : B) :
  c ≫= k = Ok b ↔ ∃ a, c = Ok a ∧ k a = Ok b.
Proof.
  destruct c as [a| |]; simpl; split.
  - intros H. exists a. split; [reflexivity|exact H].
  - intros (a' & [= <-] & H). exact H.
  - discriminate.
  - intros (? & [=] & _).
  - discriminate.
  - intros (? & [=] & _).
Qed.

(** ** Stable insertion sort *)

Section stable_sort.
Context {A : Type} (le : A → A → bool).
Hypothesis le_total : ∀ x y, le x y = true ∨ le y x = true.
Hypothesis le_trans : ∀ x y z, le x y = true → le y z = true → le x z = true.

Lemma insert_sorted_perm x l : insert_sorted le x l ≡ₚ x :: l.
Proof.
  induction l as [|y r IH]; simpl; [reflexivity|].
  destruct (le x y); [reflexivity|].
  rewrite IH. apply perm_swap.
Qed.

Lemma stable_sort_perm l : stable_sort le l ≡ₚ l.
Proof.
  induction l as [|x r IH]; simpl; [reflexivity|].
  rewrite insert_sorted_perm. by rewrite IH.
Qed.

Lemma stable_sort_length l : length (stable_sort le l) = length l.
Proof. apply Permutation_length, stable_sort_perm. Qed.

Lemma le_false_flip x y : le x y = false → le y x = true.
Proof. intros H. destruct (le_total x y); congruence. Qed.

Lemma insert_sorted_sorted x l :
  sorted_by le l → sorted_by le (insert_sorted le x l).
Proof.
  unfold sorted_by. induction 1 as [|y r Hr IH Hy]; simpl.
  - repeat constructor.
  - destruct (le x y) eqn:E.
    + constructor; [by constructor|].
      constructor; [exact E|].
      eapply Forall_impl; [exact Hy|]. intros z Hz. eauto.
    + constructor; [exact IH|].
      rewrite insert_sorted_perm. constructor; [|exact Hy].
      by apply le_false_flip.
Qed.

Lemma stable_sort_sorted l : sorted_by le (stable_sort le l).
Proof.
  induction l as [|x r IH]; simpl; [constructor|].
  by apply insert_sorted_sorted.
Qed.

Lemma insert_sorted_head x l :
  Forall (λ y, le x y = true) l → insert_sorted le x l = x :: l.
Proof. destruct 1 as [|y r Hy _]; simpl; [done|]. by rewrite Hy. Qed.

(** Sorting a sorted list changes nothing. *)
Lemma stable_sort_id l : sorted_by le l → stable_sort le l = l.
Proof.
  unfold sorted_by. induction 1 as [|x r Hr IH Hx]; simpl; [done|].
  rewrite IH. by apply insert_sorted_head.
Qed.

Lemma insert_right_perm x l : insert_right le x l ≡ₚ x :: l.
Proof.
  induction l as [|y r IH]; simpl; [reflexivity|].
  destruct (le y x); [|reflexivity].
  rewrite IH. apply perm_swap.
Qed.

Lemma insert_sorted_right a x l :
  insert_sorted le a (insert_right le x l)
  = insert_right le x (insert_sorted le a l).
Proof.
  induction l as [|y r IH]; simpl.
  - by destruct (le a x).
  - destruct (le y x) eqn:Eyx, (le a y) eqn:Eay; simpl; rewrite ?Eay, ?Eyx.
    + by rewrite (le_trans _ _ _ Eay Eyx).
    + by rewrite IH.
    + destruct (le a x) eqn:Eax; simpl; rewrite ?Eay, ?Eyx; done.
    + destruct (le a x) eqn:Eax; simpl; rewrite ?Eay, ?Eyx; [|done].
      assert (le y x = true); [|congruence].
      eapply le_trans; [|exact Eax]. by apply le_false_flip.
Qed.

(** An appended element ends up behind its equals. *)
Lemma stable_sort_snoc l x :
  stable_sort le (l ++ [x]) = insert_right le x (stable_sort le l).
Proof.
  induction l as [|a r IH]; simpl; [done|].
  rewrite IH. apply insert_sorted_right.
Qed.

Lemma take_cons_take n (y : A) r : take n (y :: take n r) = take n (y :: r).
Proof.
  destruct n as [|m]; simpl; [done|].
  rewrite take_take. by rewrite Nat.min_l by lia.
Qed.

Lemma take_insert_right n x l :
  take n (insert_right le x (take n l)) = take n (insert_right le x l).
Proof.
  revert l; induction n as [|n IH]; intros l; [done|].
  destruct l as [|y r]; simpl; [done|].
  destruct (le y x); simpl.
  - by rewrite IH.
  - by rewrite take_cons_take.
Qed.

Lemma insert_right_sorted x l :
  sorted_by le l → sorted_by le (insert_right le x l).
Proof.
  unfold sorted_by. induction 1 as [|y r Hr IH Hy]; simpl.
  - repeat constructor.
  - destruct (le y x) eqn:E.
    + constructor; [exact IH|].
      rewrite insert_right_perm. by constructor.
    + constructor; [by constructor|].
      assert (le x y = true) as Hxy by by apply le_false_flip.
      constructor; [exact Hxy|].
      eapply Forall_impl; [exact Hy|]. intros z Hz. eauto.
Qed.

Lemma sorted_by_take n l : sorted_by le l → sorted_by le (take n l).
Proof.
  unfold sorted_by. intros H. revert n.
  induction H as [|y r Hr IH Hy]; intros [|n]; simpl; try constructor.
  - apply IH.
  - eapply Forall_forall. intros z Hz.
    rewrite Forall_forall in Hy. apply Hy.
    eapply subseteq_take. exact Hz.
Qed.
End stable_sort.

(** ** Calendar fields *)

Lemma day_of_year_bounds doe :
  0 ≤ doe < 146097 → 0 ≤ day_of_year_from_march doe ≤ 365.
Proof.
  intros H. unfold day_of_year_from_march.
  Z.to_euclidean_division_equations; lia.
Qed.

Lemma month_of_days_bounds days : 1 ≤ month_of_days days ≤ 12.
Proof.
  unfold month_of_days.
  pose proof (Z.mod_pos_bound (days + 719468) 146097 ltac:(lia)) as Hdoe.
  pose proof (day_of_year_bounds _ Hdoe) as Hdoy.
  set (doy := day_of_year_from_march _) in *. clearbody doy.
  destruct (Z.ltb_spec ((5 * doy + 2) / 153) 10);
    Z.to_euclidean_division_equations; lia.
Qed.

(** The three indices into the histograms are always in range, so the
    list updates of lines 111-113 cannot raise [IndexError]. *)
Lemma utc_fields_bounds n d :
  utc_fields n = Ok d →
  1 ≤ month d ≤ 12 ∧ 0 ≤ weekday d < 7 ∧ 0 ≤ hour d < 24.
Proof.
  unfold utc_fields. destruct (_ && _); [|discriminate].
  intros [= <-]; simpl. split; [apply month_of_days_bounds|].
  split; [apply Z.mod_pos_bound; lia|].
  Z.to_euclidean_division_equations; lia.
Qed.

Lemma utc_fields_in_range n :
  min_ms ≤ n ≤ max_ms → ∃ d, utc_fields n = Ok d.
Proof.
  intros [H1 H2]. unfold utc_fields.
  apply Z.leb_le in H1, H2. rewrite H1, H2. simpl. eauto.
Qed.

Lemma utc_fields_Ok_range n d : utc_fields n = Ok d → min_ms ≤ n ≤ max_ms.
Proof.
  unfold utc_fields. destruct (_ && _) eqn:E; [|discriminate].
  apply andb_true_iff in E as [H1 H2]. lia.
Qed.

(** ** One turn of the loop *)

Lemma ingest_Ok ul l s s' :
  ingest ul l s = Ok s' ↔
  (l = Blank ∧ s' = s) ∨ (l = Malformed ∧ s' = count_line s) ∨
  ∃ game v, l = Game game ∧ read_game ul game = Ok v
            ∧ s' = update v (count_line s).
Proof.
  destruct l as [| |game|e]; simpl.
  - split; [intros [= <-]; auto|]. intros [[_ ->]|[[[=] _]|(?&?&[=]&_)]]. done.
  - split; [intros [= <-]; auto|]. intros [[[=] _]|[[_ ->]|(?&?&[=]&_)]]. done.
  - rewrite bind_Ok. split.
    + intros (v & Hv & [= <-]). right; right. eauto.
    + intros [[[=] _]|[[[=] _]|(g & v & [= <-] & Hv & ->)]]. eauto.
  - split; [done|]. by intros [[[=] _]|[[[=] _]|(?&?&[=]&_)]].
Qed.

Lemma ingest_game ul game v s :
  read_game ul game = Ok v →
  ingest ul (Game game) s = Ok (update v (count_line s)).
Proof. intros H. simpl. by rewrite H. Qed.

Lemma ingest_all_app ul l1 l2 s :
  ingest_all ul (l1 ++ l2) s = s' ← ingest_all ul l1 s; ingest_all ul l2 s'.
Proof.
  revert s; induction l1 as [|l r IH]; intros s; simpl; [done|].
  destruct (ingest ul l s); simpl; [apply IH|done..].
Qed.

Lemma reachable_init ul : reachable ul init_state.
Proof. by exists []. Qed.

Lemma reachable_step ul l s s' :
  reachable ul s → ingest ul l s = Ok s' → reachable ul s'.
Proof.
  intros [ls Hls] H. exists (ls ++ [l]).
  rewrite ingest_all_app, Hls. simpl. by rewrite H.
Qed.

(** What [read_game] returns is what the game holds. *)
Lemma read_game_fields ul game v :
  read_game ul game = Ok v →
  ∃ created last status_value status_str,
    dict_get game "createdAt" JNull = Ok created ∧
    dict_get game "lastMoveAt" JNull = Ok last ∧
    ts v = py_or created last ∧
    dict_get game "speed" JNull = Ok (speed v) ∧
    dict_get game "status" (JStr "") = Ok status_value ∧
    py_str status_value = Ok status_str ∧
    str_lower status_str = Ok (status v) ∧
    dict_get game "winner" JNull = Ok (winner v) ∧
    dict_get game "id" JNull = Ok (game_id v) ∧
    match as_int (ts v) with
    | Some n => ∃ d, utc_fields n = Ok d ∧ dt_obj v = Some (n, d)
    | None => dt_obj v = None
    end.
Proof.
  unfold read_game. intros H.
  repeat (apply bind_Ok in H as (? & ? & H)).
  injection H as <-. simpl.
  eexists _, _, _, _. repeat (split; [eassumption || reflexivity|]).
  destruct (as_int _) as [n|].
  - match goal with H : _ ≫= _ = Ok _ |- _ => apply bind_Ok in H as (d & Hd & [= <-]) end.
    eauto.
  - match goal with H : Ok None = Ok _ |- _ => by injection H as <- end.
Qed.

(** ** The shape of the dictionary is kept *)

Lemma keys_list_to_map {V} (names : list string) (v : V) (k : string) :
  is_Some ((list_to_map ((λ k, (k, v)) <$> names) : gmap string V) !! k)
  ↔ k ∈ names.
Proof.
  rewrite <- elem_of_dom, dom_list_to_map_L, elem_of_list_to_set.
  rewrite <- list_fmap_compose. by rewrite list_fmap_id.
Qed.

Lemma is_Some_alter {V} (f : V → V) (m : gmap string V) (i j : string) :
  is_Some (alter f i m !! j) ↔ is_Some (m !! j).
Proof.
  rewrite lookup_alter. case_decide; [subst|done].
  by rewrite fmap_is_Some.
Qed.

Lemma key_in_alter {V} (f : V → V) (m : gmap string V) (i : string) (k : json) :
  key_in (alter f i m) k = key_in m k.
Proof.
  destruct k; simpl; try done.
  apply option_eq; intros x.
  repeat case_bool_decide; try done;
    match goal with H : ¬ _ |- _ => exfalso; apply H end;
    by (apply is_Some_alter || (eapply is_Some_alter; eassumption)).
Qed.

Lemma key_in_Some {V} (m : gmap string V) (k : json) (x : string) :
  key_in m k = Some x ↔ k = JStr x ∧ is_Some (m !! x).
Proof.
  destruct k; simpl; try (split; [discriminate|by intros [[=] _]]).
  case_bool_decide; split.
  - by intros [= <-].
  - by intros [[= <-] _].
  - discriminate.
  - by intros [[= <-] ?].
Qed.

Lemma wf_init : wf init_stats.
Proof.
  split; try done; intros k.
  - exact (keys_list_to_map speed_names 0 k).
  - exact (keys_list_to_map ending_names 0 k).
  - exact (keys_list_to_map speed_names zero_sc k).
Qed.

Lemma wf_count_line s : wf (st s) → wf (st (count_line s)).
Proof. intros []. by split. Qed.

Lemma wf_update v s : wf (st s) → wf (st (update v s)).
Proof.
  intros [Hm Hw Hh Hs He Hb H1 H2 H3].
  split; simpl; try done.
  - destruct (dt_obj v) as [[??]|]; [|done]. unfold incr_at. by rewrite length_alter.
  - destruct (dt_obj v) as [[??]|]; [|done]. unfold incr_at. by rewrite length_alter.
  - destruct (dt_obj v) as [[??]|]; [|done]. unfold incr_at. by rewrite length_alter.
  - intros k. destruct (key_in (speed_counts (st s)) (speed v)); [|done].
    by rewrite is_Some_alter.
  - intros k. destruct (String.eqb _ _); [done|]. by rewrite is_Some_alter.
  - intros k. destruct (rated v), (key_in (opponent_by_speed (st s)) (speed v)); try done.
    by rewrite is_Some_alter.
Qed.

Lemma wf_ingest ul l s s' : ingest ul l s = Ok s' → wf (st s) → wf (st s').
Proof.
  intros H Hwf. apply ingest_Ok in H as [[_ ->]|[[_ ->]|(g & v & _ & _ & ->)]].
  - done.
  - by apply wf_count_line.
  - by apply wf_update, wf_count_line.
Qed.

Lemma wf_ingest_all ul ls s s' :
  ingest_all ul ls s = Ok s' → wf (st s) → wf (st s').
Proof.
  revert s; induction ls as [|l r IH]; intros s; simpl.
  - by intros [= <-].
  - intros H Hwf. apply bind_Ok in H as (s1 & H1 & H2).
    eapply IH; [exact H2|]. by eapply wf_ingest.
Qed.

Lemma reachable_wf ul s : reachable ul s → wf (st s).
Proof. intros [ls H]. eapply wf_ingest_all; [exact H|apply wf_init]. Qed.

(** ** Blank and malformed lines *)

Lemma is_space_spec c : is_space c = true ↔ c ∈ ascii_whitespace.
Proof.
  unfold ascii_whitespace. split.
  - destruct c as [[] [] [] [] [] [] [] []]; vm_compute; intros H;
      try discriminate; set_solver.
  - intros H. repeat (apply elem_of_cons in H as [->|H]; [done|]).
    by apply elem_of_nil in H.
Qed.

Lemma is_blank_spec raw :
  is_blank raw = true
  ↔ Forall (λ c, c ∈ ascii_whitespace) (list_ascii_of_string raw).
Proof.
  unfold is_blank. induction raw as [|c r IH]; simpl.
  - split; [constructor|done].
  - rewrite andb_true_iff, Forall_cons, IH, is_space_spec. done.
Qed.

Lemma read_game_subject ul game v :
  read_game ul game = Ok v →
  ∃ players white black white_id black_id,
    dict_get game "players" (JObj []) = Ok players ∧
    dict_get players "white" (JObj []) = Ok white ∧
    dict_get players "black" (JObj []) = Ok black ∧
    player_id white = Ok white_id ∧ player_id black = Ok black_id ∧
    user_color v = subject_color white_id black_id ul.
Proof.
  unfold read_game. intros H.
  repeat (apply bind_Ok in H as (? & ? & H)).
  injection H as <-. simpl.
  eexists _, _, _, _, _. repeat (split; [eassumption|]). reflexivity.
Qed.

(** C10: a line that is empty or holds only white space is skipped before
    [total] is incremented: the whole state of the loop is unchanged, and so
    is the result of [fetch_game_stats] when the line is dropped from the
    response. *)
Theorem blank_line_ignored loads username ul raw pre post s :
  Forall (λ c, c ∈ ascii_whitespace) (list_ascii_of_string raw) →
  ingest ul (read_line loads raw) s = Ok s ∧
  ingest_all ul (read_line loads <$> raw :: post) s
  = ingest_all ul (read_line loads <$> post) s ∧
  fetch_game_stats loads username (pre ++ raw :: post)
  = fetch_game_stats loads username (pre ++ post).
Proof.
  intros H. apply is_blank_spec in H.
  assert (read_line loads raw = Blank) as E by (unfold read_line; by rewrite H).
  rewrite fmap_cons, E. split; [done|]. split; [done|].
  unfold fetch_game_stats, run. rewrite !fmap_app, fmap_cons, E.
  destruct (str_lower username) as [u| |]; simpl; try done.
  rewrite !ingest_all_app.
  by destruct (ingest_all u (read_line loads <$> pre) init_state).
Qed.

Lemma blank_line_ignored_witness :
  ingest "alice" (read_line sample_loads (String "009" (String " " (String "010" ""))))
    init_state = Ok init_state.
Proof.
  apply (blank_line_ignored sample_loads "alice" "alice" _ [] [] init_state).
  repeat constructor; set_solver.
Defined.

Lemma not_blank_spec raw :
  is_blank raw = false
  ↔ Exists (λ c, c ∉ ascii_whitespace) (list_ascii_of_string raw).
Proof.
  rewrite <- not_true_iff_false, is_blank_spec. split.
  - intros H. apply not_Forall_Exists; [|done].
    intros c. apply _.
  - intros H HF. revert H. apply Forall_Exists_neg.
    eapply Forall_impl; [exact HF|]. tauto.
Qed.

(** C9, the claim as written fails on two kinds of lines that are not valid
    JSON.  A line of one space is rejected by [json.loads], but it is
    skipped before [total] is incremented.  A line of 1100 opening
    brackets makes [json.loads] raise [RecursionError], which line 104 does
    not catch: the run ends with that exception. *)
Lemma invalid_line_not_counted :
  sample_loads " " = Rejected ∧
  (λ s, total (st s)) <$> ingest "alice" (read_line sample_loads " ") init_state
  = Ok 0 ∧
  sample_loads deep_line = Escaped RecursionError ∧
  ingest "alice" (read_line sample_loads deep_line) init_state
  = Raise RecursionError ∧
  fetch_game_stats sample_loads "alice" ["{}"; deep_line; "{}"]
  = Raise RecursionError.
Proof. vm_compute. repeat split. Qed.

(** C9, as amended: a line that holds a byte other than ASCII white space
    and on which decoding raises [UnicodeDecodeError] or [JSONDecodeError]
    adds one to [total] and changes nothing else, neither in the statistics
    nor in the two buffers; no exception leaves the loop body and the loop
    goes on with the next line. *)
Theorem malformed_line_only_counted loads ul raw rest s :
  Exists (λ c, c ∉ ascii_whitespace) (list_ascii_of_string raw) →
  loads raw = Rejected →
  let s' := count_line s in
  ingest ul (read_line loads raw) s = Ok s' ∧
  total (st s') = total (st s) + 1 ∧
  same_but_total (st s') (st s) ∧
  timeline s' = timeline s ∧ timestamps s' = timestamps s ∧
  ingest_all ul (read_line loads raw :: rest) s = ingest_all ul rest s'.
Proof.
  intros Hb Hl s'. apply not_blank_spec in Hb.
  assert (read_line loads raw = Malformed) as E
    by (unfold read_line; by rewrite Hb, Hl).
  rewrite E. repeat split.
Qed.

Lemma malformed_line_only_counted_witness :
  ingest "alice" (read_line sample_loads "{oops") init_state
  = Ok (count_line init_state)
  ∧ total (st (count_line init_state)) = 1.
Proof.
  destruct (malformed_line_only_counted sample_loads "alice" "{oops" []
              init_state) as (H1 & H2 & _).
  - apply Exists_cons_hd. by apply (bool_decide_unpack _).
  - reflexivity.
  - split; [exact H1|exact H2].
Defined.

(** C5: when the subject is one of the two players, the outcome is a win if
    the winner is the subject's colour, else a loss if the winner is the
    other colour, else a draw when the status is a drawing reason or no
    winner is recorded; the counter of that outcome goes up by one in
    [results] and in the subject's colour of [color_results], no other
    counter of the two moves, and one pair is appended to the timeline: the
    outcome with the timestamp of the game ("created", else "last move"),
    or with 0 when the game has no timestamp. *)
Theorem outcome_recorded ul game v c s :
  read_game ul game = Ok v → user_color v = Some c →
  let o := derive_outcome c (winner v) (status v) in
  let s' := update v (count_line s) in
  ingest ul (Game game) s = Ok s' ∧
  (∃ players white black white_id black_id,
     dict_get game "players" (JObj []) = Ok players ∧
     dict_get players "white" (JObj []) = Ok white ∧
     dict_get players "black" (JObj []) = Ok black ∧
     player_id white = Ok white_id ∧ player_id black = Ok black_id ∧
     subject_color white_id black_id ul = Some c) ∧
  dict_get game "winner" JNull = Ok (winner v) ∧
  (winner v = JStr (color_name c) → o = Win) ∧
  (winner v = JStr (color_name (other_color c)) → o = Loss) ∧
  (winner v ≠ JStr "white" → winner v ≠ JStr "black" →
   is_draw_status (status v) = true ∨ winner v = JNull → o = Draw) ∧
  (∀ o', get_count o' (results (st s'))
         = get_count o' (results (st s)) + (if decide (o' = o) then 1 else 0)) ∧
  (∀ c' o', get_count o' (side c' (color_results (st s')))
            = get_count o' (side c' (color_results (st s)))
              + (if decide (c' = c ∧ o' = o) then 1 else 0)) ∧
  (∃ created last,
     dict_get game "createdAt" JNull = Ok created ∧
     dict_get game "lastMoveAt" JNull = Ok last ∧
     ts v = if truthy created then created else last) ∧
  ∃ key, timeline s' = timeline s ++ [(key, o)] ∧
    (∀ n, ts v = JInt n → key = JInt n) ∧
    (ts v = JNull → key = JInt 0) ∧
    (truthy (ts v) = true → key = ts v) ∧
    (truthy (ts v) = false → key = JInt 0).
Proof.
  intros Hv Hc o s'.
  split; [by apply ingest_game|].
  split.
  { destruct (read_game_subject _ _ _ Hv)
      as (players & white & black & wid & bid & ? & ? & ? & ? & ? & E).
    rewrite Hc in E. by exists players, white, black, wid, bid. }
  split; [by destruct (read_game_fields _ _ _ Hv) as (?&?&?&?&?&?&?&?&?&?&?&H&?)|].
  assert (∀ x, eq_str (winner v) x = false ↔ winner v ≠ JStr x) as Hne.
  { intros x. unfold eq_str. destruct (winner v); try done.
    rewrite String.eqb_neq. split; congruence. }
  split; [|split; [|split]].
  - intros E. subst o. unfold derive_outcome. rewrite E. simpl.
    by rewrite String.eqb_refl.
  - intros E. subst o. unfold derive_outcome. rewrite E. by destruct c.
  - intros Hw Hb _. subst o. unfold derive_outcome.
    apply Hne in Hw, Hb.
    assert (eq_str (winner v) (color_name c) = false) as ->
      by (by destruct c).
    rewrite Hw, Hb. simpl. by destruct (_ || _).
  - subst s'. unfold update, update_stats, outcome_of; simpl.
    rewrite Hc; simpl. fold o. clearbody o. split; [|split; [|split]].
    + intros o'. destruct o, o'; simpl; lia.
    + intros c' o'.
      destruct c, c', o, o'; simpl; try lia;
        case_decide as E; try lia;
        try (destruct E; done); exfalso; apply E; done.
    + destruct (read_game_fields _ _ _ Hv)
        as (created & last & ? & ? & ? & ? & Hts & _).
      by exists created, last.
    + exists (ts_or_0 v). split; [done|]. unfold ts_or_0, py_or.
      repeat split.
      * intros n ->. simpl. destruct (Z.eqb_spec n 0) as [->|]; done.
      * by intros ->.
      * by intros ->.
      * by intros ->.
Qed.

Lemma outcome_recorded_witness :
  (read_game "alice" sample_game = Ok sample_locals ∧
   timeline (update sample_locals (count_line init_state))
   = [(JInt 1736899200000, Win)]) ∧
  (read_game "alice" untimed_game = Ok untimed_locals ∧
   timeline (update untimed_locals (count_line init_state)) = [(JInt 0, Loss)]).
Proof.
  split; (split; [reflexivity|]).
  - destruct (outcome_recorded "alice" sample_game sample_locals White
                init_state eq_refl eq_refl)
      as (_ & _ & _ & _ & _ & _ & _ & _ & _ & key & -> & Hk & _).
    by rewrite (Hk _ eq_refl).
  - destruct (outcome_recorded "alice" untimed_game untimed_locals White
                init_state eq_refl eq_refl)
      as (_ & _ & _ & _ & _ & _ & _ & _ & _ & key & -> & _ & Hk & _).
    by rewrite (Hk eq_refl).
Defined.

(** ** Timestamps *)

Lemma incr_at_spec i (l : list Z) :
  0 ≤ i → (Z.to_nat i < length l)%nat → incremented_at i l (incr_at i l).
Proof.
  intros Hi Hlen. split; [exact Hi|].
  destruct (lookup_lt_is_Some_2 l _ Hlen) as [c Hc].
  exists c. split; [exact Hc|].
  unfold incr_at. apply list_eq. intros j.
  rewrite list_lookup_alter, list_lookup_insert.
  case_decide as E.
  - subst j. rewrite Hc. simpl. case_decide as E'; [f_equal; lia|].
    destruct E'. by split.
  - case_decide as E'; [|done]. by destruct E'.
Qed.

(** C6, the claim as written fails: a game whose "created" timestamp is 0
    (1 January 1970) and whose last move was on 1 February 1970 is filed
    under the last move, because [a or b] skips a zero. *)
Lemma created_zero_not_used :
  dict_get epoch_game "createdAt" JNull = Ok (JInt 0) ∧
  month <$> (match utc_fields 0 with Ok d => Some d | _ => None end) = Some 1 ∧
  (s ← ingest "alice" (Game epoch_game) init_state;
   Ok (timestamps s, month_counts (st s)))
  = Ok ([2678400000], [0; 1; 0; 0; 0; 0; 0; 0; 0; 0; 0; 0]).
Proof. repeat split. Qed.

(** C6, as amended: the timestamp is the "created" value unless that is
    absent, null, zero or otherwise false, in which case it is the "last
    move" value.  When the value chosen is an integer in the range that
    [datetime] supports, it is appended to the timestamp buffer and the
    cells of its UTC month, weekday and hour go up by exactly one; when it
    is not an integer, the buffer and the three histograms stay as they
    are. *)
Theorem timestamp_recorded ul game v s :
  read_game ul game = Ok v → reachable ul s →
  let s' := update v (count_line s) in
  ingest ul (Game game) s = Ok s' ∧
  (∃ created last,
     dict_get game "createdAt" JNull = Ok created ∧
     dict_get game "lastMoveAt" JNull = Ok last ∧
     ts v = if truthy created then created else last) ∧
  match as_int (ts v) with
  | Some n =>
      min_ms ≤ n ≤ max_ms ∧
      ∃ d, utc_fields n = Ok d ∧
        timestamps s' = timestamps s ++ [n] ∧
        incremented_at (month d - 1) (month_counts (st s)) (month_counts (st s')) ∧
        incremented_at (weekday d) (wday_counts (st s)) (wday_counts (st s')) ∧
        incremented_at (hour d) (hour_counts (st s)) (hour_counts (st s'))
  | None =>
      timestamps s' = timestamps s ∧
      month_counts (st s') = month_counts (st s) ∧
      wday_counts (st s') = wday_counts (st s) ∧
      hour_counts (st s') = hour_counts (st s)
  end.
Proof.
  intros Hv Hs s'. split; [by apply ingest_game|].
  destruct (read_game_fields _ _ _ Hv)
    as (created & last & ? & ? & Hc & Hl & Hts & _ & _ & _ & _ & _ & _ & Hdt).
  split; [by exists created, last|].
  destruct (reachable_wf _ _ Hs) as [Hm Hw Hh _ _ _ _ _ _].
  subst s'. unfold update, update_stats; simpl.
  destruct (as_int (ts v)) as [n|].
  - destruct Hdt as (d & Hd & ->).
    split; [by eapply utc_fields_Ok_range|].
    exists d. split; [exact Hd|]. split; [done|].
    destruct (utc_fields_bounds _ _ Hd) as (? & ? & ?).
    split; [|split]; apply incr_at_spec; lia.
  - by rewrite Hdt.
Qed.

Lemma timestamp_recorded_witness :
  timestamps (update sample_locals (count_line init_state)) = [1736899200000] ∧
  month_counts (st (update sample_locals (count_line init_state)))
  = [1; 0; 0; 0; 0; 0; 0; 0; 0; 0; 0; 0].
Proof.
  pose proof (timestamp_recorded "alice" sample_game sample_locals init_state
                eq_refl (reachable_init "alice")) as (_ & _ & H).
  simpl in H. destruct H as (_ & d & _ & H & _). split; [exact H|reflexivity].
Defined.

(** ** Streaks *)

Lemma walk_snoc os o : walk (os ++ [o]) = walk_step (walk os) o.
Proof. unfold walk. by rewrite foldl_snoc. Qed.

Lemma walk_run_step os :
  foldl (run_step Win) (0, 0) os = (longest_win (walk os), current_win (walk os))
  ∧ foldl (run_step Loss) (0, 0) os
    = (longest_loss (walk os), current_loss (walk os)).
Proof.
  induction os as [|o os [IH1 IH2]] using rev_ind; [done|].
  rewrite !foldl_snoc, walk_snoc, IH1, IH2.
  unfold run_step, walk_step; simpl. by destruct o.
Qed.

(** What a block inside [os ++ [o]] is: a block inside [os], or a block at
    the very end. *)
Lemma run_snoc_inv (x o : outcome) os pre m post :
  os ++ [o] = pre ++ replicate m x ++ post →
  (∃ post', post = post' ++ [o] ∧ os = pre ++ replicate m x ++ post')
  ∨ (post = [] ∧ (m = 0%nat ∨ ∃ m', m = S m' ∧ o = x
                                    ∧ os = pre ++ replicate m' x)).
Proof.
  intros H. destruct post as [|p post _] using rev_ind.
  - right. split; [done|]. rewrite app_nil_r in H.
    destruct m as [|m']; [by left|right].
    rewrite replicate_S_end, app_assoc in H.
    apply app_inj_tail in H as [-> ->]. eauto.
  - left. rewrite !app_assoc in H. apply app_inj_tail in H as [-> ->].
    exists post. by rewrite <- !app_assoc.
Qed.

Lemma run_step_invariant (x : outcome) os :
  let p := foldl (run_step x) (0, 0) os in
  0 ≤ p.2 ≤ p.1 ∧
  (∃ pre, os = pre ++ replicate (Z.to_nat p.2) x) ∧
  has_run x (Z.to_nat p.1) os ∧
  ∀ pre m post, os = pre ++ replicate m x ++ post →
    Z.of_nat m ≤ p.1 ∧ (post = [] → Z.of_nat m ≤ p.2).
Proof.
  induction os as [|o os IH] using rev_ind; simpl.
  - split; [lia|]. split; [by exists []|]. split; [by exists [], []|].
    intros pre m post H. symmetry in H.
    apply app_eq_nil in H as [_ H]. apply app_eq_nil in H as [H _].
    destruct m; [lia|done].
  - rewrite foldl_snoc. simpl in IH.
    destruct (foldl (run_step x) (0, 0) os) as [lw cw]; simpl in *.
    destruct IH as (Hb & (pre0 & Hsuf) & (pre1 & post1 & Hrun) & Hmax).
    case_decide as E; simpl.
    + subst o. split; [lia|]. split; [|split].
      * exists pre0. rewrite Z2Nat.inj_add by lia.
        change (Z.to_nat 1) with 1%nat. rewrite Nat.add_1_r, replicate_S_end.
        rewrite app_assoc. by rewrite <- Hsuf.
      * destruct (Z.max_spec lw (cw + 1)) as [[_ ->]|[_ ->]].
        -- exists pre0, []. rewrite app_nil_r, Z2Nat.inj_add by lia.
           change (Z.to_nat 1) with 1%nat. rewrite Nat.add_1_r, replicate_S_end.
           rewrite app_assoc. by rewrite <- Hsuf.
        -- exists pre1, (post1 ++ [x]). rewrite Hrun at 1.
           by rewrite <- !app_assoc.
      * intros pre m post H.
        apply run_snoc_inv in H as [(post' & -> & H)|[-> [->|(m' & -> & _ & H)]]].
        -- destruct (Hmax _ _ _ H) as [H1 _]. split; [lia|].
           intros H2. by destruct post'.
        -- lia.
        -- rewrite <- (app_nil_r (replicate m' x)) in H.
           destruct (Hmax _ _ _ H) as [_ H2]. specialize (H2 eq_refl). lia.
    + rewrite Z.max_l by lia. split; [lia|]. split; [|split].
      * exists (os ++ [o]). by rewrite app_nil_r.
      * exists pre1, (post1 ++ [o]). rewrite Hrun at 1. by rewrite <- !app_assoc.
      * intros pre m post H.
        apply run_snoc_inv in H as [(post' & -> & H)|[-> [->|(m' & -> & ? & H)]]].
        -- destruct (Hmax _ _ _ H) as [H1 _]. split; [lia|].
           intros H2. by destruct post'.
        -- lia.
        -- done.
Qed.

Lemma run_step_longest (x : outcome) os :
  longest_run x (foldl (run_step x) (0, 0) os).1 os.
Proof.
  destruct (run_step_invariant x os) as (Hb & _ & Hrun & Hmax).
  split; [lia|]. split; [exact Hrun|].
  intros m (pre & post & H). by destruct (Hmax _ _ _ H).
Qed.

Lemma walk_longest os :
  longest_run Win (longest_win (walk os)) os
  ∧ longest_run Loss (longest_loss (walk os)) os.
Proof.
  destruct (walk_run_step os) as [H1 H2].
  pose proof (run_step_longest Win os) as L1.
  pose proof (run_step_longest Loss os) as L2.
  rewrite H1 in L1. rewrite H2 in L2. done.
Qed.

(** ** The pass after the loop *)

Lemma key_le_total (x y : Z * outcome) :
  (x.1 <=? y.1) = true ∨ (y.1 <=? x.1) = true.
Proof. rewrite !Z.leb_le. lia. Qed.

Lemma key_le_trans (x y z : Z * outcome) :
  (x.1 <=? y.1) = true → (y.1 <=? z.1) = true → (x.1 <=? z.1) = true.
Proof. rewrite !Z.leb_le. lia. Qed.

Lemma leb_total (x y : Z) : (x <=? y) = true ∨ (y <=? x) = true.
Proof. rewrite !Z.leb_le. lia. Qed.

Lemma leb_trans (x y z : Z) :
  (x <=? y) = true → (y <=? z) = true → (x <=? z) = true.
Proof. rewrite !Z.leb_le. lia. Qed.

Lemma finalize_Ok s r :
  finalize s = Ok r →
  ∃ os gap,
    sorted_outcomes (timeline s) = Ok os ∧
    (if (1 <? length (timestamps s))%nat
     then py_max (gaps (sort_asc (timestamps s)))
     else Ok (longest_gap_ms (st s))) = Ok gap ∧
    longest_win_streak r
    = match timeline s with [] => longest_win_streak (st s)
      | _ => longest_win (walk os) end ∧
    longest_loss_streak r
    = match timeline s with [] => longest_loss_streak (st s)
      | _ => longest_loss (walk os) end ∧
    longest_gap_ms r = gap ∧
    total r = total (st s) ∧ same_but_total
      {| total := total r; speed_counts := speed_counts r;
         other_speeds := other_speeds r; results := results r;
         color_results := color_results r; endings := endings r;
         timeout_wins := timeout_wins r; timeout_losses := timeout_losses r;
         opponent_rating_sum := opponent_rating_sum r;
         opponent_rating_count := opponent_rating_count r;
         opponent_by_speed := opponent_by_speed r;
         opponent_hist := opponent_hist r; top_wins := top_wins r;
         month_counts := month_counts r; wday_counts := wday_counts r;
         hour_counts := hour_counts r;
         longest_win_streak := longest_win_streak (st s);
         longest_loss_streak := longest_loss_streak (st s);
         longest_gap_ms := longest_gap_ms (st s) |} (st s).
Proof.
  unfold finalize. intros H.
  apply bind_Ok in H as (os & Hos & H).
  apply bind_Ok in H as (gap & Hgap & [= <-]).
  exists os, gap. simpl. repeat split; done.
Qed.

Lemma sorted_outcomes_int_keys tl l :
  int_keys tl = Some l →
  sorted_outcomes tl = Ok (sort_by_key l).*2 ∧
  sort_by_key l ≡ₚ l ∧
  sorted_by (λ x y : Z * outcome, x.1 <=? y.1) (sort_by_key l).
Proof.
  intros H. unfold sorted_outcomes. rewrite H. split; [done|]. split.
  - apply stable_sort_perm.
  - apply stable_sort_sorted; [apply key_le_total|apply key_le_trans].
Qed.

(** C3: after the loop the timeline is sorted by timestamp, ascending, and
    walked once; a win extends the current win run and ends the loss run, a
    loss does the opposite, anything else ends both, and the two maxima
    that are recorded are the lengths of the longest block of consecutive
    wins and of consecutive losses in the sorted order.  For the order
    win, win, loss, win, win, win, draw, loss, loss they are 3 and 2. *)
Theorem streaks_follow_sorted_timeline s r :
  finalize s = Ok r → timeline s ≠ [] →
  (∃ os,
     sorted_outcomes (timeline s) = Ok os ∧
     (∀ l, int_keys (timeline s) = Some l →
        os = (sort_by_key l).*2 ∧ sort_by_key l ≡ₚ l ∧
        sorted_by (λ x y : Z * outcome, x.1 <=? y.1) (sort_by_key l)) ∧
     longest_win_streak r = longest_win (walk os) ∧
     longest_loss_streak r = longest_loss (walk os) ∧
     longest_run Win (longest_win_streak r) os ∧
     longest_run Loss (longest_loss_streak r) os) ∧
  (∀ pre o,
     let a := walk pre in
     let b := walk (pre ++ [o]) in
     current_win b = (if decide (o = Win) then current_win a + 1 else 0) ∧
     current_loss b = (if decide (o = Loss) then current_loss a + 1 else 0) ∧
     longest_win b = Z.max (longest_win a) (current_win b) ∧
     longest_loss b = Z.max (longest_loss a) (current_loss b)) ∧
  (λ r, (longest_win_streak r, longest_loss_streak r))
    <$> run "alice" streak_response = Ok (3, 2) ∧
  (sort_by_key <$> int_keys shuffled_timeline)
  = Some [(1, Win); (2, Win); (3, Loss); (4, Win); (5, Win); (6, Win);
          (7, Draw); (8, Loss); (9, Loss)].
Proof.
  intros H Hne. split; [|split; [|split; reflexivity]].
  - apply finalize_Ok in H as (os & gap & Hos & _ & Hw & Hl & _).
    exists os. split; [exact Hos|].
    destruct (timeline s) as [|e tl] eqn:E; [done|].
    rewrite <- E in *. clear E Hne.
    split.
    + intros l Hk. destruct (sorted_outcomes_int_keys _ _ Hk) as (H1 & H2 & H3).
      rewrite H1 in Hos. injection Hos as <-. done.
    + rewrite Hw, Hl. destruct (walk_longest os). done.
  - intros pre o a b. subst a b. rewrite walk_snoc.
    unfold walk_step; simpl. by destruct o.
Qed.

Lemma streaks_follow_sorted_timeline_witness :
  longest_run Win 3 [Win; Win; Loss; Win; Win; Win; Draw; Loss; Loss] ∧
  longest_run Loss 2 [Win; Win; Loss; Win; Win; Win; Draw; Loss; Loss].
Proof.
  destruct (streaks_follow_sorted_timeline (buffers shuffled_timeline [])
              (with_final 3 2 0) eq_refl ltac:(discriminate))
    as [(os & Hos & _ & _ & _ & H1 & H2) _].
  injection Hos as <-. split; [exact H1|exact H2].
Defined.

(** ** The longest gap *)

Lemma gaps_lookup l i g :
  gaps l !! i = Some g
  ↔ ∃ a b, l !! i = Some a ∧ l !! S i = Some b ∧ g = b - a.
Proof.
  revert i; induction l as [|a [|b r] IH]; intros i.
  - simpl. split; [done|]. by intros (?&?&?&_).
  - simpl. split; [done|]. intros (?&?&_&?&_). by destruct i.
  - change (gaps (a :: b :: r)) with ((b - a) :: gaps (b :: r)).
    destruct i as [|i].
    + simpl. split.
      * intros [= <-]. eauto.
      * by intros (?&?&[= <-]&[= <-]&->).
    + change (((b - a) :: gaps (b :: r)) !! S i) with (gaps (b :: r) !! i).
      rewrite IH. done.
Qed.

Lemma gaps_nonempty l : (1 < length l)%nat → gaps l ≠ [].
Proof. destruct l as [|a [|b r]]; simpl; [lia..|done]. Qed.

Lemma foldl_max_spec (x : Z) l :
  (foldl Z.max x l = x ∨ foldl Z.max x l ∈ l) ∧ x ≤ foldl Z.max x l
  ∧ ∀ y, y ∈ l → y ≤ foldl Z.max x l.
Proof.
  revert x; induction l as [|a l IH]; intros x; simpl.
  - split; [by left|]. split; [lia|]. intros y Hy. by apply elem_of_nil in Hy.
  - destruct (IH (Z.max x a)) as (H1 & H2 & H3). split; [|split].
    + destruct H1 as [H1|H1].
      * rewrite H1. destruct (Z.max_spec x a) as [[_ ->]|[_ ->]];
          [right; left|by left].
      * right. by right.
    + lia.
    + intros y Hy. apply elem_of_cons in Hy as [->|Hy]; [lia|by apply H3].
Qed.

Lemma py_max_spec l m :
  py_max l = Ok m ↔ m ∈ l ∧ ∀ y, y ∈ l → y ≤ m.
Proof.
  destruct l as [|x l]; simpl.
  - split; [done|]. intros [H _]. by apply elem_of_nil in H.
  - destruct (foldl_max_spec x l) as (H1 & H2 & H3). split.
    + intros [= <-]. split.
      * destruct H1 as [->|H1]; [left|by right].
      * intros y Hy. apply elem_of_cons in Hy as [->|Hy]; auto.
    + intros [Hm Hub]. f_equal. apply Z.le_antisymm.
      * apply Hub. destruct H1 as [->|H1]; [left|by right].
      * apply elem_of_cons in Hm as [->|Hm]; auto.
Qed.

Lemma py_max_gaps l :
  (1 < length l)%nat → ∃ g, py_max (gaps l) = Ok g ∧ max_adjacent_gap g l.
Proof.
  intros Hlen. pose proof (gaps_nonempty l Hlen) as Hne.
  destruct (gaps l) as [|x r] eqn:E; [done|]. clear Hne.
  exists (foldl Z.max x r). split; [done|].
  assert (py_max (gaps l) = Ok (foldl Z.max x r)) as H by by rewrite E.
  apply py_max_spec in H as [Hin Hub]. split.
  - apply list_elem_of_lookup in Hin as [i Hi].
    apply gaps_lookup in Hi as (a & b & ? & ? & ?). eauto 6.
  - intros i a b Ha Hb. apply Hub, list_elem_of_lookup. exists i.
    apply gaps_lookup. eauto.
Qed.

(** C7: after the loop the timestamps are sorted ascending; with two or
    more of them [longest_gap_ms] is the largest difference of two
    chronological neighbours, and with fewer it stays 0.  The timestamps
    1000, 5000, 6000, 50000 give 44000. *)
Theorem longest_gap_is_max_adjacent ul s r :
  reachable ul s → finalize s = Ok r →
  sort_asc (timestamps s) ≡ₚ timestamps s ∧
  sorted_by Z.leb (sort_asc (timestamps s)) ∧
  ((2 ≤ length (timestamps s))%nat →
   max_adjacent_gap (longest_gap_ms r) (sort_asc (timestamps s))) ∧
  ((length (timestamps s) < 2)%nat → longest_gap_ms r = 0) ∧
  longest_gap_ms <$> run "alice" gap_response = Ok 44000 ∧
  sort_asc [5000; 50000; 1000; 6000] = [1000; 5000; 6000; 50000].
Proof.
  intros Hs H. split; [apply stable_sort_perm|].
  split; [apply stable_sort_sorted; [apply leb_total|apply leb_trans]|].
  split; [|split; [|split; reflexivity]].
  - intros Hlen. apply finalize_Ok in H as (_ & gap & _ & Hgap & _ & _ & -> & _).
    destruct (Nat.ltb_spec 1 (length (timestamps s))) as [Hlt|]; [|lia].
    destruct (py_max_gaps (sort_asc (timestamps s))) as (g & Hg & Hmax).
    { unfold sort_asc. by rewrite stable_sort_length. }
    rewrite Hg in Hgap. by injection Hgap as <-.
  - intros Hlen. apply finalize_Ok in H as (_ & gap & _ & Hgap & _ & _ & -> & _).
    destruct (Nat.ltb_spec 1 (length (timestamps s))) as [|_]; [lia|].
    injection Hgap as <-. by destruct (reachable_wf _ _ Hs).
Qed.

Lemma longest_gap_is_max_adjacent_witness :
  max_adjacent_gap 44000 [1000; 5000; 6000; 50000].
Proof.
  assert (reachable "alice" (state_after "alice" gap_response)) as Hr
    by (exists gap_response; reflexivity).
  assert (finalize (state_after "alice" gap_response)
          = Ok (stats_after "alice" gap_response)) as Hf by reflexivity.
  destruct (longest_gap_is_max_adjacent "alice" _ _ Hr Hf) as (_ & _ & H & _).
  apply H. simpl. lia.
Defined.

(** ** The three best wins *)

Lemma desc_total (x y : entry) : desc x y = true ∨ desc y x = true.
Proof. unfold desc. rewrite !Z.leb_le. lia. Qed.

Lemma desc_trans (x y z : entry) :
  desc x y = true → desc y z = true → desc x z = true.
Proof. unfold desc. rewrite !Z.leb_le. lia. Qed.

Lemma sort_desc_snoc l e :
  sort_desc (l ++ [e]) = insert_right desc e (sort_desc l).
Proof. apply stable_sort_snoc; [apply desc_total|apply desc_trans]. Qed.

Lemma removelast_take {B} (l : list B) : removelast l = take (length l - 1) l.
Proof.
  destruct l as [|x l _] using rev_ind; [done|].
  rewrite removelast_last, length_app. simpl.
  replace (length l + 1 - 1)%nat with (length l) by lia.
  by rewrite take_app_length.
Qed.

(** Appending, sorting and popping keeps the three best of the four. *)
Lemma push_top_win_take e tw :
  sorted_by desc tw → (length tw ≤ 3)%nat →
  push_top_win e tw = take 3 (insert_right desc e tw).
Proof.
  intros Hs Hlen. unfold push_top_win.
  rewrite sort_desc_snoc. unfold sort_desc.
  rewrite (stable_sort_id desc tw Hs).
  pose proof (Permutation_length (insert_right_perm desc e tw)) as Hl.
  simpl in Hl.
  destruct (Nat.ltb_spec 3 (length (insert_right desc e tw))).
  - rewrite removelast_take. f_equal. lia.
  - symmetry. apply take_ge. lia.
Qed.

Lemma top_wins_update v s :
  top_wins (update_stats v s)
  = match win_entry v with
    | Some e => push_top_win e (top_wins s)
    | None => top_wins s
    end.
Proof.
  unfold update_stats, win_entry; simpl.
  destruct (rated v); [|done]. by destruct (outcome_of v) as [[]|].
Qed.

Lemma top_wins_ingest ul l s s' :
  ingest ul l s = Ok s' →
  top_wins (st s')
  = match line_win ul l with
    | Some e => push_top_win e (top_wins (st s))
    | None => top_wins (st s)
    end.
Proof.
  intros H. apply ingest_Ok in H as [[-> ->]|[[-> ->]|(g & v & -> & Hv & ->)]];
    try done.
  simpl. rewrite Hv. apply top_wins_update.
Qed.

Lemma wins_of_snoc ul ls l :
  wins_of ul (ls ++ [l])
  = wins_of ul ls ++ match line_win ul l with Some e => [e] | None => [] end.
Proof. unfold wins_of. rewrite omap_app. simpl. by destruct (line_win ul l). Qed.

(** What the loop retains is the front of the stable sort of all wins. *)
Lemma top_wins_all ul ls s :
  ingest_all ul ls init_state = Ok s →
  top_wins (st s) = take 3 (sort_desc (wins_of ul ls)).
Proof.
  revert s; induction ls as [|l ls IH] using rev_ind; intros s.
  - by intros [= <-].
  - rewrite ingest_all_app. intros H.
    apply bind_Ok in H as (s0 & H0 & H). simpl in H.
    apply bind_Ok in H as (s1 & H1 & [= <-]).
    rewrite (top_wins_ingest _ _ _ _ H1), (IH _ H0), wins_of_snoc.
    destruct (line_win ul l) as [e|]; [|by rewrite app_nil_r].
    rewrite sort_desc_snoc, push_top_win_take.
    + apply take_insert_right.
    + apply sorted_by_take, stable_sort_sorted; [apply desc_total|apply desc_trans].
    + rewrite length_take. lia.
Qed.

Lemma top_wins_reachable ul s :
  reachable ul s →
  (length (top_wins (st s)) ≤ 3)%nat ∧ sorted_by desc (top_wins (st s)).
Proof.
  intros [ls H]. rewrite (top_wins_all _ _ _ H). split.
  - rewrite length_take. lia.
  - apply sorted_by_take, stable_sort_sorted; [apply desc_total|apply desc_trans].
Qed.

Lemma insert_right_last (e : entry) tw :
  Forall (λ x, rating_of e < rating_of x) tw →
  insert_right desc e tw = tw ++ [e].
Proof.
  induction 1 as [|x r Hx _ IH]; simpl; [done|].
  unfold desc at 1. destruct (Z.leb_spec (rating_of e) (rating_of x)); [|lia].
  by rewrite IH.
Qed.

Lemma insert_right_before (e m : entry) front :
  rating_of m < rating_of e →
  insert_right desc e (front ++ [m]) = insert_right desc e front ++ [m].
Proof.
  intros Hm. induction front as [|y r IH]; simpl.
  - unfold desc. destruct (Z.leb_spec (rating_of e) (rating_of m)); [lia|done].
  - destruct (desc y e); [|done]. by rewrite IH.
Qed.

Lemma sorted_desc_last (front : list entry) m :
  sorted_by desc (front ++ [m]) →
  Forall (λ x, rating_of m ≤ rating_of x) (front ++ [m]).
Proof.
  intros H. apply StronglySorted_app in H as (H & _ & _).
  apply Forall_app. split; [|by constructor].
  apply Forall_forall. intros x Hx.
  specialize (H x m Hx ltac:(left)). unfold desc in H. by apply Z.leb_le in H.
Qed.

(** C4: in every state of the loop, and in the result, [top_wins] holds at
    most three entries, sorted by rating, highest first.  A win over a rated
    opponent is pushed with append, sort and pop; when three entries are
    held, a win rated strictly below all of them leaves the list as it is,
    and one rated strictly above the last, lowest, entry takes its place in
    the order while that entry and no other is dropped. *)
Theorem top_wins_bounded_sorted ul s :
  reachable ul s →
  (length (top_wins (st s)) ≤ 3)%nat ∧
  sorted_by desc (top_wins (st s)) ∧
  (∀ r, finalize s = Ok r → top_wins r = top_wins (st s)) ∧
  (∀ game v e, read_game ul game = Ok v → win_entry v = Some e →
     ingest ul (Game game) s = Ok (update v (count_line s)) ∧
     top_wins (st (update v (count_line s))) = push_top_win e (top_wins (st s))) ∧
  (∀ e, length (top_wins (st s)) = 3%nat →
     Forall (λ x, rating_of e < rating_of x) (top_wins (st s)) →
     push_top_win e (top_wins (st s)) = top_wins (st s)) ∧
  (∀ e front m, top_wins (st s) = front ++ [m] → length front = 2%nat →
     rating_of m < rating_of e →
     Forall (λ x, rating_of m ≤ rating_of x) (top_wins (st s)) ∧
     push_top_win e (top_wins (st s)) = insert_right desc e front ∧
     push_top_win e (top_wins (st s)) ≡ₚ e :: front).
Proof.
  intros Hs. destruct (top_wins_reachable _ _ Hs) as [Hlen Hsorted].
  split; [exact Hlen|]. split; [exact Hsorted|]. split; [|split; [|split]].
  - intros r Hr. apply finalize_Ok in Hr as (_ & _ & _ & _ & _ & _ & _ & Hsame).
    unfold same_but_total in Hsame; simpl in Hsame. tauto.
  - intros game v e Hv He. split; [by apply ingest_game|].
    transitivity (top_wins (update_stats v (st (count_line s)))); [done|].
    by rewrite top_wins_update, He.
  - intros e H3 Hlow.
    rewrite push_top_win_take, insert_right_last by done.
    rewrite <- H3. apply take_app_length.
  - intros e front m Htw Hfront Hm.
    rewrite Htw in Hsorted |- *.
    split; [by apply sorted_desc_last|].
    assert (push_top_win e (front ++ [m]) = insert_right desc e front) as ->.
    { rewrite push_top_win_take, insert_right_before; try done.
      - apply take_app_length'.
        pose proof (Permutation_length (insert_right_perm desc e front)) as Hl.
        simpl in Hl. lia.
      - rewrite length_app. simpl. lia. }
    split; [done|apply insert_right_perm].
Qed.

Lemma top_wins_bounded_sorted_witness :
  top_wins (st (state_after "alice" three_wins))
  = [(1700, JStr "carl", JStr "g2"); (1600, JStr "dana", JStr "g3");
     (1500, JStr "bob", JStr "g1")]
  ∧ push_top_win (1650, JStr "erin", JStr "g4")
      (top_wins (st (state_after "alice" three_wins)))
    = [(1700, JStr "carl", JStr "g2"); (1650, JStr "erin", JStr "g4");
       (1600, JStr "dana", JStr "g3")].
Proof.
  assert (reachable "alice" (state_after "alice" three_wins)) as Hr
    by (exists three_wins; reflexivity).
  destruct (top_wins_bounded_sorted "alice" _ Hr) as (_ & _ & _ & _ & _ & H).
  split; [reflexivity|].
  destruct (H (1650, JStr "erin", JStr "g4")
              [(1700, JStr "carl", JStr "g2"); (1600, JStr "dana", JStr "g3")]
              (1500, JStr "bob", JStr "g1") eq_refl eq_refl eq_refl)
    as (_ & -> & _).
  reflexivity.
Defined.

(** ** Counters *)

Lemma run_Ok username ls r :
  run username ls = Ok r ↔
  ∃ ul s, str_lower username = Ok ul ∧ ingest_all ul ls init_state = Ok s
          ∧ finalize s = Ok r.
Proof.
  unfold run. rewrite bind_Ok. split.
  - intros (ul & Hul & H). apply bind_Ok in H as (s & Hs & Hr). eauto.
  - intros (ul & s & Hul & Hs & Hr). exists ul. split; [done|].
    apply bind_Ok. eauto.
Qed.

Lemma count_cons {A} (p : A → bool) x l :
  count p (x :: l) = (if p x then 1 else 0) + count p l.
Proof. unfold count. simpl. destruct (p x); simpl; lia. Qed.

Lemma count_le_iff {A} (p q : A → bool) l :
  (∀ x, p x = true → q x = true) →
  count p l ≤ count q l ∧
  (count p l = count q l ↔ Forall (λ x, q x = true → p x = true) l).
Proof.
  intros Hpq. induction l as [|x l [IH1 IH2]].
  - split; [done|]. split; [constructor|done].
  - rewrite !count_cons, Forall_cons.
    specialize (Hpq x).
    destruct (p x) eqn:Ep, (q x) eqn:Eq.
    + split; [lia|]. rewrite <- IH2. split; [intros; split; [done|lia]|].
      intros [_ ?]. lia.
    + discriminate Hpq. done.
    + split; [lia|]. split; [lia|]. intros [H _]. discriminate H. done.
    + split; [lia|]. rewrite <- IH2. split; [intros; split; [done|lia]|].
      intros [_ ?]. lia.
Qed.

Lemma speed_sum_update v s :
  wf s →
  speed_sum (update_stats v s) + other_speeds (update_stats v s)
  = speed_sum s + other_speeds s + 1.
Proof.
  intros Hwf. unfold speed_sum; simpl.
  destruct (key_in (speed_counts s) (speed v)) as [k|] eqn:E; [|lia].
  apply key_in_Some in E as [_ Hk].
  pose proof (proj2 (wf_speeds s Hwf "bullet") ltac:(set_solver)) as [a Ha].
  pose proof (proj2 (wf_speeds s Hwf "blitz") ltac:(set_solver)) as [b Hb].
  pose proof (proj2 (wf_speeds s Hwf "rapid") ltac:(set_solver)) as [c Hc].
  pose proof (proj2 (wf_speeds s Hwf "classical") ltac:(set_solver)) as [d Hd].
  apply (wf_speeds s Hwf) in Hk. unfold speed_names in Hk.
  repeat (apply elem_of_cons in Hk as [->|Hk]);
    [..|by apply elem_of_nil in Hk];
    rewrite !lookup_alter; repeat case_decide; try congruence;
    rewrite Ha, Hb, Hc, Hd; simpl; lia.
Qed.

Lemma results_sum_update v s :
  results_sum (update_stats v s)
  = results_sum s + (if bool_decide (is_Some (user_color v)) then 1 else 0).
Proof.
  unfold results_sum, update_stats, outcome_of.
  destruct (user_color v) as [c|]; simpl.
  - destruct (derive_outcome c (winner v) (status v)); simpl; lia.
  - lia.
Qed.

Lemma counters_ingest ul l s s' :
  ingest ul l s = Ok s' → wf (st s) →
  total (st s') = total (st s) + (if is_offered l then 1 else 0) ∧
  speed_sum (st s') + other_speeds (st s')
  = speed_sum (st s) + other_speeds (st s) + (if is_offered l then 1 else 0)
    - (if is_malformed l then 1 else 0) ∧
  results_sum (st s')
  = results_sum (st s) + (if identifies ul l then 1 else 0).
Proof.
  intros H Hwf.
  apply ingest_Ok in H as [[-> ->]|[[-> ->]|(g & v & -> & Hv & ->)]]; simpl.
  - repeat split; lia.
  - repeat split; unfold speed_sum, results_sum; simpl; lia.
  - rewrite Hv. split; [done|].
    change (st (update v (count_line s)))
      with (update_stats v (st (count_line s))).
    rewrite speed_sum_update by (by apply wf_count_line).
    rewrite results_sum_update. split; [|done].
    unfold speed_sum; simpl; lia.
Qed.

Lemma counters_ingest_all ul ls s s' :
  ingest_all ul ls s = Ok s' → wf (st s) →
  total (st s') = total (st s) + count is_offered ls ∧
  speed_sum (st s') + other_speeds (st s')
  = speed_sum (st s) + other_speeds (st s) + count is_offered ls
    - count is_malformed ls ∧
  results_sum (st s') = results_sum (st s) + count (identifies ul) ls.
Proof.
  revert s; induction ls as [|l ls IH]; intros s; simpl.
  - intros [= <-] _. unfold count; simpl. lia.
  - intros H Hwf. apply bind_Ok in H as (s1 & H1 & H2).
    destruct (counters_ingest _ _ _ _ H1 Hwf) as (E1 & E2 & E3).
    destruct (IH _ H2 (wf_ingest _ _ _ _ H1 Hwf)) as (F1 & F2 & F3).
    rewrite !count_cons. lia.
Qed.

Lemma counters_init :
  total init_stats = 0 ∧ speed_sum init_stats + other_speeds init_stats = 0
  ∧ results_sum init_stats = 0.
Proof. repeat split. Qed.

Lemma counters_run username ls r :
  run username ls = Ok r →
  ∃ ul, str_lower username = Ok ul ∧
    total r = count is_offered ls ∧
    speed_sum r + other_speeds r = count is_offered ls - count is_malformed ls ∧
    results_sum r = count (identifies ul) ls.
Proof.
  intros H. apply run_Ok in H as (ul & s & Hul & Hs & Hr).
  exists ul. split; [done|].
  destruct (counters_ingest_all _ _ _ _ Hs wf_init) as (E1 & E2 & E3).
  destruct counters_init as (I1 & I2 & I3).
  change (st init_state) with init_stats in E1, E2, E3.
  apply finalize_Ok in Hr as (_ & _ & _ & _ & _ & _ & _ & Ht & Hsame).
  unfold same_but_total in Hsame; simpl in Hsame.
  destruct Hsame as (S1 & S2 & S3 & Hrest).
  assert (speed_sum r = speed_sum (st s)) as -> by (unfold speed_sum; by rewrite S1).
  assert (results_sum r = results_sum (st s)) as -> by (unfold results_sum; by rewrite S3).
  rewrite Ht, S2. lia.
Qed.

Lemma count_read_line loads response :
  count is_offered (read_line loads <$> response) = count raw_offered response
  ∧ count is_malformed (read_line loads <$> response)
    = count (raw_failed loads) response.
Proof.
  induction response as [|raw response [IH1 IH2]]; [done|].
  rewrite fmap_cons, !count_cons, IH1, IH2.
  unfold read_line, raw_offered, raw_failed.
  destruct (is_blank raw); simpl; [lia|].
  destruct (loads raw); simpl; lia.
Qed.

(** C2: [total] is the number of lines that are offered to the loop body,
    that is of the non-blank lines, whether they parse or not; the four
    values of [speed_counts] and [other_speeds] add up to [total] minus the
    number of lines that failed to parse. *)
Theorem total_counts_offered_lines loads username response r :
  fetch_game_stats loads username response = Ok r →
  total r = count raw_offered response ∧
  default 0 (speed_counts r !! "bullet") + default 0 (speed_counts r !! "blitz")
  + default 0 (speed_counts r !! "rapid")
  + default 0 (speed_counts r !! "classical") + other_speeds r
  = total r - count (raw_failed loads) response.
Proof.
  unfold fetch_game_stats. intros H.
  apply counters_run in H as (ul & _ & Ht & Hs & _).
  destruct (count_read_line loads response) as [E1 E2].
  unfold speed_sum in Hs. lia.
Qed.

Lemma total_counts_offered_lines_witness :
  total (stats_after "alice" (read_line sample_loads <$> sample_response)) = 3
  ∧ other_speeds (stats_after "alice" (read_line sample_loads <$> sample_response))
    = 2.
Proof.
  assert (fetch_game_stats sample_loads "alice" sample_response
          = Ok (stats_after "alice" (read_line sample_loads <$> sample_response)))
    as Hrun by reflexivity.
  destruct (total_counts_offered_lines _ _ _ _ Hrun) as [H1 H2].
  split; [exact H1|reflexivity].
Defined.

Lemma identifies_offered ul l : identifies ul l = true → is_offered l = true.
Proof. by destruct l. Qed.

Lemma identifies_spec ul l :
  identifies ul l = true
  ↔ ∃ game v c, l = Game game ∧ read_game ul game = Ok v ∧ user_color v = Some c.
Proof.
  destruct l as [| |game|e]; simpl;
    [split; [done|]; by intros (?&?&?&[=]&_)..| |
     split; [done|]; by intros (?&?&?&[=]&_)].
  - destruct (read_game ul game) as [v| |] eqn:E.
    + rewrite bool_decide_eq_true. split.
      * intros [c Hc]. by exists game, v, c.
      * intros (?&?&c&[= <-]&Hv&Hc). rewrite E in Hv.
        injection Hv as <-. by exists c.
    + split; [done|]. intros (?&?&?&[= <-]&Hv&_). congruence.
    + split; [done|]. intros (?&?&?&[= <-]&Hv&_). congruence.
Qed.

(** C8: the three counters of [results] add up to at most [total], and they
    add up to [total] exactly when every line offered to the loop body is a
    game in which the subject is one of the two players. *)
Theorem results_at_most_total username ul ls r :
  str_lower username = Ok ul → run username ls = Ok r →
  win (results r) + loss (results r) + draw (results r) ≤ total r ∧
  (win (results r) + loss (results r) + draw (results r) = total r
   ↔ Forall (λ l, is_offered l = true → identifies ul l = true) ls) ∧
  (∀ l, identifies ul l = true
        ↔ ∃ game v c, l = Game game ∧ read_game ul game = Ok v
                      ∧ user_color v = Some c).
Proof.
  intros Hul H. apply counters_run in H as (ul' & Hul' & Ht & _ & Hr).
  rewrite Hul in Hul'. injection Hul' as <-.
  unfold results_sum in Hr. rewrite Hr, Ht.
  destruct (count_le_iff (identifies ul) is_offered ls (identifies_offered ul))
    as [H1 H2].
  split; [exact H1|]. split; [exact H2|]. apply identifies_spec.
Qed.

Lemma results_at_most_total_witness :
  results_sum (stats_after "alice" three_wins) = 3 ∧
  total (stats_after "alice" three_wins) = 3 ∧
  Forall (λ l, is_offered l = true → identifies "alice" l = true) three_wins.
Proof.
  assert (run "alice" three_wins = Ok (stats_after "alice" three_wins))
    as Hrun by reflexivity.
  destruct (results_at_most_total "alice" "alice" three_wins _ eq_refl Hrun)
    as (_ & H & _).
  split; [reflexivity|]. split; [reflexivity|]. apply H. reflexivity.
Defined.

(** ** Independence of the order of delivery *)

Lemma ingest_step ul l s s' :
  ingest ul l s = Ok s' ↔ ∃ e, line_effect ul l = Some e ∧ s' = step e s.
Proof.
  rewrite ingest_Ok. destruct l as [| |game|e]; simpl.
  - split.
    + intros [[_ ->]|[[[=] _]|(?&?&[=]&_)]]. by exists (false, None).
    + intros (e & [= <-] & ->). by left.
  - split.
    + intros [[[=] _]|[[_ ->]|(?&?&[=]&_)]]. by exists (true, None).
    + intros (e & [= <-] & ->). right. by left.
  - split.
    + intros [[[=] _]|[[[=] _]|(g & v & [= <-] & Hv & ->)]].
      exists (true, Some v). by rewrite Hv.
    + intros (e & He & ->). right; right.
      destruct (read_game ul game) as [v| |] eqn:E; try discriminate.
      injection He as <-. by exists game, v.
  - split; [|by intros (?&[=]&_)].
    by intros [[[=] _]|[[[=] _]|(?&?&[=]&_)]].
Qed.

Lemma same_counts_refl a : same_counts a a.
Proof. by split. Qed.

Lemma agree_refl a : agree a a.
Proof. split; first [done|apply same_counts_refl]. Qed.

Lemma agree_trans a b c : agree a b → agree b c → agree a c.
Proof.
  intros [[] ? ? ? ?] [[] ? ? ? ?]. split; [split|..]; try congruence.
  - by etrans.
  - by etrans.
Qed.

Lemma agree_count_line a b : agree a b → agree (count_line a) (count_line b).
Proof.
  intros [[] ? ? ? ?]. split; [split|..]; simpl; try done. congruence.
Qed.

Lemma agree_update v a b : agree a b → agree (update v a) (update v b).
Proof.
  intros [[E1 E2 E3 E4 E5 E6 E7 E8 E9 E10 E11 E12 E13 E14 E15 E16] ? ? Htl Hts].
  split; [split|..]; simpl;
    rewrite ?E1, ?E2, ?E3, ?E4, ?E5, ?E6, ?E7, ?E8, ?E9, ?E10, ?E11, ?E12,
      ?E13, ?E14, ?E15, ?E16; try done.
  - destruct (outcome_of v); [|done]. by rewrite Htl.
  - destruct (dt_obj v) as [[??]|]; [|done]. by rewrite Hts.
Qed.

Lemma agree_step e a b : agree a b → agree (step e a) (step e b).
Proof.
  intros H. destruct e as [[] [v|]]; unfold step; simpl;
    auto using agree_count_line, agree_update.
Qed.

Lemma alter_alter_comm {V} (f g : V → V) (i j : string) (m : gmap string V) :
  (∀ x, f (g x) = g (f x)) →
  alter f i (alter g j m) = alter g j (alter f i m).
Proof.
  intros Hfg. apply map_eq. intros k. rewrite !lookup_alter.
  repeat case_decide; subst; try done.
  destruct (m !! k); simpl; [|done]. by rewrite Hfg.
Qed.

Lemma list_alter_alter_comm (f : Z → Z) (i j : nat) (l : list Z) :
  alter f i (alter f j l) = alter f j (alter f i l).
Proof.
  apply list_eq. intros k. rewrite !list_lookup_alter.
  repeat case_decide; subst; done.
Qed.

Lemma incr_at_comm i j l : incr_at i (incr_at j l) = incr_at j (incr_at i l).
Proof. apply list_alter_alter_comm. Qed.

Lemma hist_incr_comm (a b : Z) (m : gmap Z Z) :
  <[a := default 0 (<[b := default 0 (m !! b) + 1]> m !! a) + 1]>
    (<[b := default 0 (m !! b) + 1]> m)
  = <[b := default 0 (<[a := default 0 (m !! a) + 1]> m !! b) + 1]>
      (<[a := default 0 (m !! a) + 1]> m).
Proof.
  apply map_eq. intros k. rewrite !lookup_insert.
  repeat case_decide; subst; try done.
Qed.

Lemma bump_comm o o' r : bump o (bump o' r) = bump o' (bump o r).
Proof. destruct o, o'; unfold bump; simpl; f_equal; lia. Qed.

Lemma bump_color_comm c o c' o' r :
  bump_color c o (bump_color c' o' r) = bump_color c' o' (bump_color c o r).
Proof.
  destruct c, c'; unfold bump_color; simpl; f_equal; apply bump_comm.
Qed.

Lemma ending_key_alter f k m status :
  ending_key (alter f k m) status = ending_key m status.
Proof.
  unfold ending_key.
  destruct (bool_decide_reflect (is_Some (m !! status))) as [H|H].
  - rewrite bool_decide_eq_true_2; [done|]. by apply is_Some_alter.
  - rewrite bool_decide_eq_false_2; [done|]. by rewrite is_Some_alter.
Qed.

(** Two games update the counters to the same values in either order. *)
Lemma update_stats_comm v w s :
  same_counts (update_stats v (update_stats w s))
    (update_stats w (update_stats v s)).
Proof.
  split; simpl.
  - done.
  - destruct (key_in (speed_counts s) (speed w)) eqn:Ew,
      (key_in (speed_counts s) (speed v)) eqn:Ev;
      rewrite ?key_in_alter, ?Ew, ?Ev; try done.
    apply alter_alter_comm. done.
  - destruct (key_in (speed_counts s) (speed w)) eqn:Ew,
      (key_in (speed_counts s) (speed v)) eqn:Ev;
      rewrite ?key_in_alter, ?Ew, ?Ev; try done.
  - destruct (outcome_of v), (outcome_of w); try done. apply bump_comm.
  - destruct (user_color v), (outcome_of v), (user_color w), (outcome_of w);
      try done. apply bump_color_comm.
  - destruct (String.eqb (status v) ""), (String.eqb (status w) ""); try done.
    rewrite !ending_key_alter. apply alter_alter_comm. done.
  - destruct (negb _ && _), (negb _ && _), (outcome_of v) as [[]|],
      (outcome_of w) as [[]|]; lia.
  - destruct (negb _ && _), (negb _ && _), (outcome_of v) as [[]|],
      (outcome_of w) as [[]|]; lia.
  - destruct (rated v), (rated w); lia.
  - destruct (rated v), (rated w); lia.
  - destruct (rated v) as [r|], (rated w) as [r'|]; try done;
      destruct (key_in (opponent_by_speed s) (speed w)) eqn:Ew,
        (key_in (opponent_by_speed s) (speed v)) eqn:Ev;
      rewrite ?key_in_alter, ?Ew, ?Ev; try done.
    apply alter_alter_comm. intros [a b]; simpl. f_equal; lia.
  - destruct (rated v) as [r|], (rated w) as [r'|]; try done.
    apply hist_incr_comm.
  - destruct (dt_obj v) as [[??]|], (dt_obj w) as [[??]|]; try done.
    apply incr_at_comm.
  - destruct (dt_obj v) as [[??]|], (dt_obj w) as [[??]|]; try done.
    apply incr_at_comm.
  - destruct (dt_obj v) as [[??]|], (dt_obj w) as [[??]|]; try done.
    apply incr_at_comm.
  - done.
Qed.

Lemma count_line_update v s : count_line (update v s) = update v (count_line s).
Proof. reflexivity. Qed.

Lemma update_comm v w s : agree (update v (update w s)) (update w (update v s)).
Proof.
  split.
  - apply update_stats_comm.
  - done.
  - done.
  - simpl. destruct (outcome_of v), (outcome_of w); try done.
    rewrite <- !app_assoc. apply Permutation_app_head, perm_swap.
  - simpl. destruct (dt_obj v) as [[??]|], (dt_obj w) as [[??]|]; try done.
    rewrite <- !app_assoc. apply Permutation_app_head, perm_swap.
Qed.

Lemma step_comm e e' s : agree (step e (step e' s)) (step e' (step e s)).
Proof.
  destruct e as [[] [v|]], e' as [[] [w|]]; unfold step; cbn [fst snd];
    rewrite ?count_line_update; first [apply agree_refl|apply update_comm].
Qed.

(** A line that raises nothing in one state raises nothing in any other. *)
Lemma ingest_agree ul l s t s' :
  agree s t → ingest ul l s = Ok s' →
  ∃ t', ingest ul l t = Ok t' ∧ agree s' t'.
Proof.
  intros Hag H. apply ingest_step in H as (e & He & ->).
  exists (step e t). split; [|by apply agree_step].
  apply ingest_step. eauto.
Qed.

Lemma ingest_all_agree ul ls s t s' :
  agree s t → ingest_all ul ls s = Ok s' →
  ∃ t', ingest_all ul ls t = Ok t' ∧ agree s' t'.
Proof.
  revert s t; induction ls as [|l ls IH]; intros s t Hag; simpl.
  - intros [= <-]. eauto.
  - intros H. apply bind_Ok in H as (s1 & H1 & H2).
    destruct (ingest_agree _ _ _ _ _ Hag H1) as (t1 & Ht1 & Hag1).
    rewrite Ht1. simpl. by eapply IH.
Qed.

Lemma ingest_all_perm ul ls ls' :
  ls ≡ₚ ls' →
  ∀ s t s', agree s t → ingest_all ul ls s = Ok s' →
  ∃ t', ingest_all ul ls' t = Ok t' ∧ agree s' t'.
Proof.
  induction 1 as [|l ls ls' _ IH|x y ls|ls1 ls2 ls3 _ IH1 _ IH2];
    intros s t s' Hag H.
  - apply (ingest_all_agree _ _ _ _ _ Hag H).
  - simpl in H. apply bind_Ok in H as (s1 & H1 & H2).
    destruct (ingest_agree _ _ _ _ _ Hag H1) as (t1 & Ht1 & Hag1).
    simpl. rewrite Ht1. simpl. by eapply IH.
  - simpl in H. apply bind_Ok in H as (s1 & H1 & H).
    apply bind_Ok in H as (s2 & H2 & H3).
    apply ingest_step in H1 as (e1 & He1 & ->).
    apply ingest_step in H2 as (e2 & He2 & ->).
    assert (ingest ul x t = Ok (step e2 t)) as Hx
      by (apply ingest_step; eauto).
    assert (ingest ul y (step e2 t) = Ok (step e1 (step e2 t))) as Hy
      by (apply ingest_step; eauto).
    simpl. rewrite Hx. simpl. rewrite Hy. simpl.
    eapply ingest_all_agree; [|exact H3].
    eapply agree_trans; [apply step_comm|].
    by apply agree_step, agree_step.
  - destruct (IH1 _ _ _ (agree_refl s) H) as (u & Hu & Hag1).
    destruct (IH2 _ _ _ Hag Hu) as (t' & Ht' & Hag2).
    exists t'. split; [done|]. by eapply agree_trans.
Qed.

(** ** Sorting a permutation *)

Section sort_unique.
Context {A : Type} (le : A → A → bool).
Hypothesis le_total : ∀ x y, le x y = true ∨ le y x = true.
Hypothesis le_trans : ∀ x y z, le x y = true → le y z = true → le x z = true.

(** When no two different elements tie, the sorted list does not depend on
    the order of the input. *)
Lemma stable_sort_unique l l' :
  l ≡ₚ l' →
  (∀ x y, x ∈ l → y ∈ l → le x y = true → le y x = true → x = y) →
  stable_sort le l = stable_sort le l'.
Proof.
  intros Hp Hanti.
  apply (StronglySorted_unique_strong (λ x y, le x y = true)).
  - intros x y Hx Hy. apply Hanti.
    + by rewrite stable_sort_perm in Hx.
    + rewrite stable_sort_perm in Hy. by rewrite Hp.
  - by apply stable_sort_sorted.
  - by apply stable_sort_sorted.
  - by rewrite !stable_sort_perm.
Qed.
End sort_unique.

Lemma sort_asc_perm l l' : l ≡ₚ l' → sort_asc l = sort_asc l'.
Proof.
  intros Hp. apply stable_sort_unique; try done.
  - apply leb_total.
  - apply leb_trans.
  - intros x y _ _ H1 H2. apply Z.leb_le in H1, H2. lia.
Qed.

Lemma NoDup_fst_inj {B} (l : list (Z * B)) x y :
  NoDup l.*1 → x ∈ l → y ∈ l → x.1 = y.1 → x = y.
Proof.
  induction l as [|a l IH]; simpl; intros Hnd Hx Hy E.
  - by apply elem_of_nil in Hx.
  - apply NoDup_cons in Hnd as [Ha Hnd].
    apply elem_of_cons in Hx as [->|Hx]; apply elem_of_cons in Hy as [->|Hy].
    + done.
    + destruct Ha. rewrite E. by apply list_elem_of_fmap_2.
    + destruct Ha. rewrite <- E. by apply list_elem_of_fmap_2.
    + by apply IH.
Qed.

Lemma sort_by_key_perm (l l' : list (Z * outcome)) :
  l ≡ₚ l' → NoDup l.*1 → sort_by_key l = sort_by_key l'.
Proof.
  intros Hp Hnd. apply stable_sort_unique; try done.
  - apply key_le_total.
  - apply key_le_trans.
  - intros x y Hx Hy H1 H2. apply Z.leb_le in H1, H2.
    apply (NoDup_fst_inj l); [done..|lia].
Qed.

Lemma NoDup_rating_inj (l : list entry) x y :
  NoDup (rating_of <$> l) → x ∈ l → y ∈ l → rating_of x = rating_of y → x = y.
Proof.
  induction l as [|a l IH]; simpl; intros Hnd Hx Hy E.
  - by apply elem_of_nil in Hx.
  - apply NoDup_cons in Hnd as [Ha Hnd].
    apply elem_of_cons in Hx as [->|Hx]; apply elem_of_cons in Hy as [->|Hy].
    + done.
    + destruct Ha. rewrite E. by apply list_elem_of_fmap_2.
    + destruct Ha. rewrite <- E. by apply list_elem_of_fmap_2.
    + by apply IH.
Qed.

Lemma sort_desc_perm (l l' : list entry) :
  l ≡ₚ l' → NoDup (rating_of <$> l) → sort_desc l = sort_desc l'.
Proof.
  intros Hp Hnd. apply stable_sort_unique; try done.
  - apply desc_total.
  - apply desc_trans.
  - intros x y Hx Hy H1 H2. unfold desc in H1, H2. apply Z.leb_le in H1, H2.
    apply (NoDup_rating_inj l); [done..|lia].
Qed.

(** ** Stability: equal keys keep their order *)

Lemma StronglySorted_iff {A} (P Q : A → A → Prop) l :
  (∀ x y, P x y ↔ Q x y) → StronglySorted P l ↔ StronglySorted Q l.
Proof.
  intros H. split; induction 1 as [|x r Hr IH Hx]; constructor; try done;
    eapply Forall_impl; try exact Hx; intros y; apply H.
Qed.

Lemma StronglySorted_lookup {A} (P : A → A → Prop) l i j a b :
  StronglySorted P l → l !! i = Some a → l !! j = Some b → (i < j)%nat → P a b.
Proof.
  intros H. revert i j. induction H as [|x r Hr IH Hx]; intros i j Hi Hj Hlt.
  - done.
  - destruct j as [|j]; [lia|]. destruct i as [|i]; simpl in *.
    + injection Hi as <-. by eapply Forall_lookup_1 in Hx.
    + apply (IH i j); [done..|lia].
Qed.

Lemma filter_nothing {A} (P : A → Prop) `{∀ x, Decision (P x)} l :
  Forall (λ x, ¬ P x) l → filter P l = [].
Proof.
  induction 1 as [|x r Hx _ IH]; [done|].
  by rewrite filter_cons, decide_False.
Qed.

Lemma filter_everything {A} (P : A → Prop) `{∀ x, Decision (P x)} l :
  Forall P l → filter P l = l.
Proof.
  induction 1 as [|x r Hx _ IH]; [done|].
  by rewrite filter_cons, decide_True, IH.
Qed.

Section stable_ties.
Context {A : Type} (le : A → A → bool) (key : A → Z) (R : Z → Z → Prop).
Hypothesis le_key : ∀ x y, le x y = true ↔ R (key x) (key y).
Hypothesis R_total : ∀ a b, R a b ∨ R b a.
Hypothesis R_trans : ∀ a b c, R a b → R b c → R a c.
Hypothesis R_antisym : ∀ a b, R a b → R b a → a = b.

Lemma le_key_total x y : le x y = true ∨ le y x = true.
Proof. rewrite !le_key. apply R_total. Qed.

Lemma le_key_trans x y z : le x y = true → le y z = true → le x z = true.
Proof. rewrite !le_key. apply R_trans. Qed.

Lemma R_refl a : R a a.
Proof. by destruct (R_total a a). Qed.

(** An inserted element passes no element of its own key. *)
Lemma insert_sorted_filter k x l :
  filter (λ y, key y = k) (insert_sorted le x l)
  = filter (λ y, key y = k) (x :: l).
Proof.
  induction l as [|y r IH]; simpl; [done|].
  destruct (le x y) eqn:E; [done|].
  rewrite filter_cons, IH, !filter_cons.
  destruct (decide (key y = k)) as [Hy|], (decide (key x = k)) as [Hx|];
    try done.
  assert (le x y = true); [|congruence].
  apply le_key. rewrite Hx, Hy. apply R_refl.
Qed.

Lemma stable_sort_filter k l :
  filter (λ y, key y = k) (stable_sort le l) = filter (λ y, key y = k) l.
Proof.
  induction l as [|x r IH]; [done|].
  change (stable_sort le (x :: r)) with (insert_sorted le x (stable_sort le r)).
  by rewrite insert_sorted_filter, !filter_cons, IH.
Qed.

Lemma stable_sort_stably l : stably_sorted key R (stable_sort le l) l.
Proof.
  split; [apply stable_sort_perm|]. split.
  - apply (StronglySorted_iff (λ x y, le x y = true)).
    + intros x y. apply le_key.
    + apply stable_sort_sorted; [apply le_key_total|apply le_key_trans].
  - intros k. apply stable_sort_filter.
Qed.

(** A list is determined by being sorted and by the order of the elements
    of each key. *)
Lemma sorted_ties_unique l l' :
  StronglySorted (λ x y, R (key x) (key y)) l →
  StronglySorted (λ x y, R (key x) (key y)) l' →
  (∀ k, filter (λ x, key x = k) l = filter (λ x, key x = k) l') → l = l'.
Proof.
  intros Hl; revert l'; induction Hl as [|x l Hl IH Hx]; intros l' Hl' Hf.
  - destruct l' as [|y l']; [done|]. specialize (Hf (key y)).
    rewrite filter_nil, filter_cons, decide_True in Hf by done. done.
  - destruct Hl' as [|y l' Hl' Hy].
    + specialize (Hf (key x)).
      rewrite filter_nil, filter_cons, decide_True in Hf by done. done.
    + assert (y ∈ x :: l) as Hyin.
      { assert (y ∈ filter (λ z, key z = key y) (y :: l')) as H
          by (apply list_elem_of_filter; split; [done|left]).
        rewrite <- Hf in H. by apply list_elem_of_filter in H as [_ H]. }
      assert (x ∈ y :: l') as Hxin.
      { assert (x ∈ filter (λ z, key z = key x) (x :: l)) as H
          by (apply list_elem_of_filter; split; [done|left]).
        rewrite Hf in H. by apply list_elem_of_filter in H as [_ H]. }
      assert (key x = key y) as Hk.
      { apply R_antisym.
        - apply elem_of_cons in Hyin as [->|Hyin]; [apply R_refl|].
          by eapply Forall_forall in Hx.
        - apply elem_of_cons in Hxin as [->|Hxin]; [apply R_refl|].
          by eapply Forall_forall in Hy. }
      pose proof (Hf (key x)) as H0. rewrite !filter_cons in H0.
      rewrite decide_True in H0 by done.
      rewrite (decide_True (P := key y = key x)) in H0 by done.
      injection H0 as -> H0. f_equal. apply IH; [done|].
      intros k. destruct (decide (key y = k)) as [<-|Hne]; [done|].
      specialize (Hf k). rewrite !filter_cons in Hf.
      by rewrite !decide_False in Hf by done.
Qed.

(** The stable sort is the only list that is stably sorted. *)
Lemma stably_sorted_unique sorted l :
  stably_sorted key R sorted l → sorted = stable_sort le l.
Proof.
  intros (_ & Hs & Hf). destruct (stable_sort_stably l) as (_ & Hs' & Hf').
  apply sorted_ties_unique; [done..|]. intros k. by rewrite Hf, Hf'.
Qed.

Lemma stable_sort_same_ties l l' :
  same_order_of_ties key l l' → stable_sort le l' = stable_sort le l.
Proof.
  intros H.
  destruct (stable_sort_stably l) as (_ & Hs & Hf).
  destruct (stable_sort_stably l') as (_ & Hs' & Hf').
  apply sorted_ties_unique; [done..|]. intros k. by rewrite Hf, Hf', H.
Qed.

(** In a sorted list the elements that are not behind [x] form a prefix. *)
Lemma sorted_filter_prefix x l :
  sorted_by le l →
  filter (λ z, le z x = true) l
  = take (length (filter (λ z, le z x = true) l)) l.
Proof.
  unfold sorted_by. induction 1 as [|a r Hr IH Ha]; [done|].
  rewrite filter_cons. destruct (decide (le a x = true)) as [Hax|Hax].
  - simpl. by rewrite <- IH.
  - assert (filter (λ z, le z x = true) r = []) as ->; [|done].
    apply filter_nothing. eapply Forall_impl; [exact Ha|].
    intros z Haz Hzx. apply Hax. exact (le_key_trans _ _ _ Haz Hzx).
Qed.

(** When the element at position [m] sorts strictly before the next one,
    the first [m + 1] elements are the same ones in every sorted
    permutation. *)
Lemma take_clear_cut m x l l' :
  sorted_by le l → sorted_by le l' → l ≡ₚ l' → l !! m = Some x →
  (∀ y, l !! S m = Some y → le y x = false) →
  take (S m) l' ≡ₚ take (S m) l.
Proof.
  intros Hl Hl' Hp Hx Hcut.
  assert (filter (λ z, le z x = true) l = take (S m) l) as Hf.
  { rewrite <- (take_drop (S m) l) at 1. rewrite filter_app.
    rewrite filter_everything, filter_nothing; [by rewrite app_nil_r| |].
    - apply Forall_lookup_2. intros j z Hj Hzx. rewrite lookup_drop in Hj.
      destruct (l !! S m) as [y|] eqn:Hy.
      + specialize (Hcut y eq_refl).
        assert (le y z = true) as Hyz.
        { destruct j as [|j].
          - rewrite Nat.add_0_r, Hy in Hj. injection Hj as <-.
            by destruct (le_key_total y y).
          - apply (StronglySorted_lookup _ l (S m) (S m + S j) y z Hl);
              [done..|lia]. }
        rewrite (le_key_trans _ _ _ Hyz Hzx) in Hcut. done.
      + apply lookup_ge_None in Hy.
        apply lookup_lt_Some in Hj. lia.
    - apply Forall_lookup_2. intros i z Hi.
      apply lookup_take_Some in Hi as [Hi Hlt].
      destruct (decide (i = m)) as [->|Hne].
      + rewrite Hx in Hi. injection Hi as <-. by destruct (le_key_total x x).
      + apply (StronglySorted_lookup _ l i m z x Hl); [done..|lia]. }
  assert (length (filter (λ z, le z x = true) l') = S m) as Hlen.
  { rewrite <- Hp, Hf, length_take. apply lookup_lt_Some in Hx. lia. }
  rewrite <- Hf, Hp. rewrite (sorted_filter_prefix x l' Hl'), Hlen. done.
Qed.

End stable_ties.

(** ** The pass after the loop on permuted buffers *)

Lemma int_keys_cons p tl :
  int_keys (p :: tl)
  = match as_int p.1, int_keys tl with
    | Some n, Some k => Some ((n, p.2) :: k)
    | _, _ => None
    end.
Proof.
  unfold int_keys. simpl. destruct (as_int p.1); simpl; [|done].
  by destruct (mapM _ tl).
Qed.

Lemma int_keys_perm tl tl' :
  tl ≡ₚ tl' →
  ∀ l, int_keys tl = Some l → ∃ l', int_keys tl' = Some l' ∧ l ≡ₚ l'.
Proof.
  induction 1 as [|p tl tl' _ IH|p q tl|tl1 tl2 tl3 _ IH1 _ IH2]; intros l.
  - intros [= <-]. by exists [].
  - rewrite !int_keys_cons. destruct (as_int p.1) as [n|]; [|done].
    destruct (int_keys tl) as [k|]; [|done]. intros [= <-].
    destruct (IH k eq_refl) as (k' & -> & Hk). exists ((n, p.2) :: k').
    split; [done|]. by constructor.
  - rewrite !int_keys_cons.
    destruct (as_int q.1) as [m|]; [|done].
    destruct (as_int p.1) as [n|]; [|done].
    destruct (int_keys tl) as [k|]; [|done]. intros [= <-].
    eexists. split; [done|]. apply perm_swap.
  - intros H1. destruct (IH1 _ H1) as (l2 & H2 & Hp1).
    destruct (IH2 _ H2) as (l3 & H3 & Hp2).
    exists l3. split; [done|]. by etrans.
Qed.

Lemma perm_short {B} (l l' : list B) : l ≡ₚ l' → (length l ≤ 1)%nat → l' = l.
Proof.
  intros Hp Hlen. destruct l as [|x [|y l]]; simpl in Hlen; [| |lia].
  - by apply Permutation_nil_l in Hp.
  - by apply Permutation_singleton_l in Hp.
Qed.

Lemma sorted_outcomes_perm tl tl' os :
  tl ≡ₚ tl' → sorted_outcomes tl = Ok os →
  ∃ os', sorted_outcomes tl' = Ok os'.
Proof.
  intros Hp. unfold sorted_outcomes.
  destruct (int_keys tl) as [l|] eqn:E.
  - intros _. destruct (int_keys_perm _ _ Hp _ E) as (l' & -> & Hl). eauto.
  - destruct (Nat.leb_spec (length tl) 1) as [Hlen|]; [|done].
    intros _. rewrite (perm_short _ _ Hp Hlen), E.
    destruct (Nat.leb_spec (length tl) 1); [|lia]. eauto.
Qed.

Lemma finalize_agree s t r :
  agree s t → finalize s = Ok r →
  ∃ r', finalize t = Ok r' ∧ same_counts r r' ∧
    top_wins r = top_wins (st s) ∧ top_wins r' = top_wins (st t).
Proof.
  intros [Hc Hw Hl Htl Hts] H. unfold finalize in H.
  apply bind_Ok in H as (os & Hos & H).
  apply bind_Ok in H as (gap & Hgap & [= <-]).
  destruct (sorted_outcomes_perm _ _ _ Htl Hos) as (os' & Hos').
  assert ((if (1 <? length (timestamps t))%nat
           then py_max (gaps (sort_asc (timestamps t)))
           else Ok (longest_gap_ms (st t))) = Ok gap) as Hgap'.
  { rewrite <- (Permutation_length Hts), <- (sort_asc_perm _ _ Hts).
    by rewrite <- (sc_gap _ _ Hc). }
  unfold finalize. rewrite Hos', Hgap'. simpl.
  eexists. split; [reflexivity|].
  split; [by destruct Hc; split|]. done.
Qed.

(** The streaks are those of the walk over the sorted outcomes, also when
    the timeline is empty. *)
Lemma finalize_streaks s r :
  wf (st s) → finalize s = Ok r →
  ∃ os, sorted_outcomes (timeline s) = Ok os ∧
        longest_win_streak r = longest_win (walk os) ∧
        longest_loss_streak r = longest_loss (walk os).
Proof.
  intros Hwf H. apply finalize_Ok in H as (os & gap & Hos & _ & Hw & Hl & _).
  exists os. split; [done|]. destruct (timeline s) as [|p tl].
  - injection Hos as <-. rewrite Hw, Hl. by destruct Hwf as [_ _ _ _ _ _ -> -> _].
  - done.
Qed.

Lemma wins_of_perm ul ls ls' : ls ≡ₚ ls' → wins_of ul ls ≡ₚ wins_of ul ls'.
Proof. intros H. unfold wins_of. by rewrite H. Qed.

(** The timeline holds the records of the games in the order of delivery. *)
Lemma timeline_all ul ls s s' :
  ingest_all ul ls s = Ok s' → timeline s' = timeline s ++ records_of ul ls.
Proof.
  revert s; induction ls as [|l ls IH]; intros s; simpl.
  - intros [= <-]. by rewrite app_nil_r.
  - intros H. apply bind_Ok in H as (s1 & H1 & H2). rewrite (IH _ H2).
    unfold records_of.
    apply ingest_Ok in H1 as [[-> ->]|[[-> ->]|(g & v & -> & Hv & ->)]]; simpl.
    + done.
    + done.
    + rewrite Hv. simpl. destruct (outcome_of v); simpl; [|done].
      by rewrite <- app_assoc.
Qed.

Lemma desc_key x y : desc x y = true ↔ rating_of x >= rating_of y.
Proof. unfold desc. rewrite Z.leb_le. lia. Qed.

Lemma fst_le_key (x y : Z * outcome) : (x.1 <=? y.1) = true ↔ x.1 ≤ y.1.
Proof. apply Z.leb_le. Qed.

Lemma sort_desc_stably l : stably_sorted rating_of Z.ge (sort_desc l) l.
Proof. apply stable_sort_stably; [apply desc_key|intros; lia..]. Qed.

Lemma sort_by_key_stably l : stably_sorted fst Z.le (sort_by_key l) l.
Proof. apply stable_sort_stably; [apply fst_le_key|intros; lia..]. Qed.

Lemma sort_desc_same_ties l l' :
  same_order_of_ties rating_of l l' → sort_desc l' = sort_desc l.
Proof.
  apply (stable_sort_same_ties desc rating_of Z.ge);
    [apply desc_key|intros; lia..].
Qed.

Lemma sort_by_key_same_ties (l l' : list (Z * outcome)) :
  same_order_of_ties fst l l' → sort_by_key l' = sort_by_key l.
Proof.
  apply (stable_sort_same_ties _ fst Z.le); [apply fst_le_key|intros; lia..].
Qed.

Lemma sort_by_key_ties_agree (l l' : list (Z * outcome)) :
  l ≡ₚ l' → ties_agree l → sort_by_key l' = sort_by_key l.
Proof.
  intros Hp Ht. symmetry. apply stable_sort_unique; try done.
  - apply key_le_total.
  - apply key_le_trans.
  - intros [k o] [k' o'] Hx Hy H1 H2. apply Z.leb_le in H1, H2. simpl in *.
    assert (k = k') as -> by lia. f_equal. exact (Ht _ _ Hx Hy eq_refl).
Qed.

(** The first three of a ranking with a clear cut behind the third. *)
Lemma top_three_perm (l l' : list entry) :
  l ≡ₚ l' → clear_cut (sort_desc l) →
  take 3 (sort_desc l') ≡ₚ take 3 (sort_desc l).
Proof.
  intros Hp Hcut.
  assert (sort_desc l ≡ₚ sort_desc l') as Hp'
    by (unfold sort_desc; by rewrite !stable_sort_perm).
  destruct (sort_desc l !! 3%nat) as [y|] eqn:Hy.
  - destruct (sort_desc l !! 2%nat) as [x|] eqn:Hx.
    + apply (take_clear_cut desc rating_of Z.ge) with (x := x);
        try (intros; lia); try apply desc_key; try done.
      * apply stable_sort_sorted; [apply desc_total|apply desc_trans].
      * apply stable_sort_sorted; [apply desc_total|apply desc_trans].
      * intros y' Hy'. rewrite Hy in Hy'. injection Hy' as <-.
        specialize (Hcut x y Hx Hy). unfold desc. apply Z.leb_gt. lia.
    + apply lookup_ge_None in Hx. apply lookup_lt_Some in Hy. lia.
  - apply lookup_ge_None in Hy.
    rewrite !take_ge; [by symmetry|lia|].
    rewrite <- (Permutation_length Hp'). lia.
Qed.

Lemma top_three_eq (l l' : list entry) :
  l ≡ₚ l' → clear_cut (sort_desc l) → untied (take 3 (sort_desc l)) →
  take 3 (sort_desc l') = take 3 (sort_desc l).
Proof.
  intros Hp Hcut Hun. symmetry.
  apply (StronglySorted_unique_strong (λ x y, desc x y = true)).
  - intros x y Hx Hy H1 H2. rewrite (top_three_perm _ _ Hp Hcut) in Hy.
    apply (Hun x y Hx Hy).
    unfold desc in H1, H2. apply Z.leb_le in H1, H2. lia.
  - apply sorted_by_take, stable_sort_sorted; [apply desc_total|apply desc_trans].
  - apply sorted_by_take, stable_sort_sorted; [apply desc_total|apply desc_trans].
  - symmetry. by apply top_three_perm.
Qed.

Lemma five_wins_run :
  run "Alice" five_wins = Ok (stats_after "Alice" five_wins).
Proof. vm_compute. reflexivity. Qed.

(** C1, the claim as written fails where two records tie.  Of four wins
    over opponents with one rating the three delivered first are retained,
    so a permutation of the delivery changes [top_wins]; and records that
    carry one timestamp stay in their order of delivery when the timeline
    is sorted, so a permutation changes the streaks. *)
Lemma ties_depend_on_delivery :
  tied_wins ≡ₚ tied_wins_permuted ∧
  top_wins <$> run "alice" tied_wins
  = Ok [(1500, JStr "bob", JStr "g1"); (1500, JStr "carl", JStr "g2");
        (1500, JStr "dana", JStr "g3")] ∧
  top_wins <$> run "alice" tied_wins_permuted
  = Ok [(1500, JStr "erin", JStr "g4"); (1500, JStr "bob", JStr "g1");
        (1500, JStr "carl", JStr "g2")] ∧
  tied_stamps ≡ₚ tied_stamps_permuted ∧
  longest_win_streak <$> run "alice" tied_stamps = Ok 1 ∧
  longest_win_streak <$> run "alice" tied_stamps_permuted = Ok 2.
Proof.
  split; [|split; [reflexivity|split; [reflexivity|split;
    [|split; reflexivity]]]].
  - unfold tied_wins, tied_wins_permuted. symmetry.
    exact (Permutation_cons_append
             [win_over "g1" 1000 "bob"; win_over "g2" 2000 "carl";
              win_over "g3" 3000 "dana"] (win_over "g4" 4000 "erin")).
  - unfold tied_stamps, tied_stamps_permuted. apply perm_skip, perm_swap.
Qed.

(** C1, as amended: a permutation of the delivery order changes no field of
    the returned statistics other than [top_wins] and the two streaks;
    [longest_gap_ms] in particular is computed from the sorted timestamps
    and is the same.  [top_wins] is the first three of the subject's wins
    over rated opponents ranked by descending rating, wins over one and the
    same rating in their order of delivery.  Under a permutation it holds
    the same entries when the third rating of the ranking is strictly above
    the fourth (or there are at most three such wins); it is then the same
    list when no two different retained entries have one rating; and it is
    the same list whenever the wins over one rating are delivered in the
    same order.  The streaks are those of the outcomes ranked by ascending
    sort key, where the sort key of a game is its timestamp, or 0 when it
    has none, and games of one sort key are in their order of delivery.
    Under a permutation they are the same when any two games of one sort
    key have one outcome, and whenever the games of one sort key are
    delivered in the same order. *)
Theorem order_independence username ul ls ls' r :
  ls ≡ₚ ls' → str_lower username = Ok ul → run username ls = Ok r →
  ∃ r', run username ls' = Ok r' ∧
    same_counts r r' ∧
    (let wins := wins_of ul ls in
     let wins' := wins_of ul ls' in
     let best := sort_desc wins in
     let best' := sort_desc wins' in
     wins' ≡ₚ wins ∧
     stably_sorted rating_of Z.ge best wins ∧
     stably_sorted rating_of Z.ge best' wins' ∧
     top_wins r = take 3 best ∧ top_wins r' = take 3 best' ∧
     (clear_cut best → top_wins r' ≡ₚ top_wins r) ∧
     (clear_cut best → untied (top_wins r) → top_wins r' = top_wins r) ∧
     (same_order_of_ties rating_of wins wins' → top_wins r' = top_wins r)) ∧
    (∀ recs, int_keys (records_of ul ls) = Some recs →
       ∃ recs', int_keys (records_of ul ls') = Some recs' ∧ recs' ≡ₚ recs ∧
         let sorted := sort_by_key recs in
         let sorted' := sort_by_key recs' in
         stably_sorted fst Z.le sorted recs ∧
         stably_sorted fst Z.le sorted' recs' ∧
         longest_run Win (longest_win_streak r) sorted.*2 ∧
         longest_run Loss (longest_loss_streak r) sorted.*2 ∧
         longest_run Win (longest_win_streak r') sorted'.*2 ∧
         longest_run Loss (longest_loss_streak r') sorted'.*2 ∧
         (ties_agree recs →
            longest_win_streak r' = longest_win_streak r ∧
            longest_loss_streak r' = longest_loss_streak r) ∧
         (same_order_of_ties fst recs recs' →
            longest_win_streak r' = longest_win_streak r ∧
            longest_loss_streak r' = longest_loss_streak r)) ∧
    (int_keys (records_of ul ls) = None →
       longest_win_streak r' = longest_win_streak r ∧
       longest_loss_streak r' = longest_loss_streak r).
Proof.
  intros Hp Hul H. apply run_Ok in H as (ul' & s & Hul' & Hs & Hr).
  rewrite Hul in Hul'. injection Hul' as <-.
  destruct (ingest_all_perm _ _ _ Hp _ _ _ (agree_refl init_state) Hs)
    as (t & Ht & Hag).
  destruct (finalize_agree _ _ _ Hag Hr) as (r' & Hr' & Hc & Htw & Htw').
  exists r'. split; [apply run_Ok; eauto|]. split; [exact Hc|].
  rewrite Htw, Htw', (top_wins_all _ _ _ Hs), (top_wins_all _ _ _ Ht).
  pose proof (wins_of_perm ul _ _ Hp) as Hwp.
  assert (wf (st s)) as Hwfs by (eapply wf_ingest_all; [exact Hs|apply wf_init]).
  assert (wf (st t)) as Hwft by (eapply wf_ingest_all; [exact Ht|apply wf_init]).
  destruct (finalize_streaks _ _ Hwfs Hr) as (os & Hos & Hw & Hl).
  destruct (finalize_streaks _ _ Hwft Hr') as (os' & Hos' & Hw' & Hl').
  rewrite (timeline_all _ _ _ _ Hs) in Hos.
  rewrite (timeline_all _ _ _ _ Ht) in Hos'. simpl in Hos, Hos'.
  assert (records_of ul ls ≡ₚ records_of ul ls') as Hrp
    by (unfold records_of; by rewrite Hp).
  split; [|split].
  - split; [by symmetry|]. split; [apply sort_desc_stably|].
    split; [apply sort_desc_stably|]. split; [done|]. split; [done|].
    split; [by apply top_three_perm|]. split; [by apply top_three_eq|].
    intros Hsame. by rewrite (sort_desc_same_ties _ _ Hsame).
  - intros recs Hk.
    destruct (int_keys_perm _ _ Hrp _ Hk) as (recs' & Hk' & Hkp).
    exists recs'. split; [done|]. split; [by symmetry|].
    destruct (sorted_outcomes_int_keys _ _ Hk) as (H1 & _).
    destruct (sorted_outcomes_int_keys _ _ Hk') as (H1' & _).
    rewrite H1 in Hos. injection Hos as <-.
    rewrite H1' in Hos'. injection Hos' as <-.
    split; [apply sort_by_key_stably|]. split; [apply sort_by_key_stably|].
    rewrite Hw, Hl, Hw', Hl'.
    destruct (walk_longest (sort_by_key recs).*2).
    destruct (walk_longest (sort_by_key recs').*2).
    repeat (split; [done|]). split.
    + intros Hta. by rewrite (sort_by_key_ties_agree _ _ Hkp Hta).
    + intros Hsame. by rewrite (sort_by_key_same_ties _ _ Hsame).
  - intros Hk. unfold sorted_outcomes in Hos. rewrite Hk in Hos.
    destruct (Nat.leb_spec (length (records_of ul ls)) 1) as [Hlen|]; [|done].
    rewrite (perm_short _ _ Hrp Hlen) in Hos'.
    unfold sorted_outcomes in Hos'. rewrite Hk in Hos'.
    destruct (Nat.leb_spec (length (records_of ul ls)) 1); [|lia].
    injection Hos as <-. injection Hos' as <-. by rewrite Hw, Hl, Hw', Hl'.
Qed.

Lemma order_independence_witness :
  ∃ r', run "Alice" (reverse five_wins) = Ok r' ∧
        same_counts (stats_after "Alice" five_wins) r' ∧
        top_wins r' = top_wins (stats_after "Alice" five_wins) ∧
        longest_win_streak r'
        = longest_win_streak (stats_after "Alice" five_wins).
Proof.
  assert (five_wins ≡ₚ reverse five_wins) as Hp
    by (symmetry; apply reverse_Permutation).
  destruct (order_independence "Alice" "alice" _ _ _ Hp eq_refl five_wins_run)
    as (r' & H1 & H2 & (_ & _ & _ & _ & _ & _ & H3 & _) & H4 & _).
  exists r'. split; [exact H1|]. split; [exact H2|]. split.
  - apply H3.
    + intros x y Hx Hy. vm_compute in Hx, Hy.
      injection Hx as <-. injection Hy as <-. reflexivity.
    + intros x y. apply NoDup_rating_inj. by apply (bool_decide_unpack _).
  - assert (int_keys (records_of "alice" five_wins)
            = Some [(1000, Win); (2000, Win); (3000, Win); (4000, Win);
                    (5000, Win)]) as Hk by reflexivity.
    destruct (H4 _ Hk) as (recs' & _ & _ & _ & _ & _ & _ & _ & _ & H5 & _).
    apply H5. intros x y Hx Hy E.
    assert (x = y) as ->; [|done].
    refine (NoDup_fst_inj _ x y _ Hx Hy E).
    by apply (bool_decide_unpack _).
Defined.

(** ** Termination without an exception *)

(** The pass after the loop returns whenever the keys of the timeline are
    integers: [max] is never applied to an empty list. *)
Lemma finalize_total s l :
  int_keys (timeline s) = Some l → ∃ r, finalize s = Ok r.
Proof.
  intros Hk. unfold finalize.
  destruct (sorted_outcomes_int_keys _ _ Hk) as (-> & _). simpl.
  destruct (Nat.ltb_spec 1 (length (timestamps s))) as [Hlen|_].
  - destruct (py_max_gaps (sort_asc (timestamps s))) as (g & -> & _).
    + unfold sort_asc. by rewrite stable_sort_length.
    + simpl. eauto.
  - simpl. eauto.
Qed.

(** The loop returns whenever no single line raises. *)
Lemma ingest_all_total ul ls s :
  Forall (λ l, is_Some (line_effect ul l)) ls →
  ∃ s', ingest_all ul ls s = Ok s'.
Proof.
  intros H. revert s. induction H as [|l ls [e He] _ IH]; intros s; simpl.
  - eauto.
  - assert (ingest ul l s = Ok (step e s)) as -> by (apply ingest_step; eauto).
    simpl. apply IH.
Qed.

(** * The rest of the module: properties *)

(** ** [_year_bounds_ms] *)

Lemma year_start_ms_Ok year ms :
  year_start_ms year = Ok ms
  ↔ 1 ≤ year ≤ 9999 ∧ ms = (days_before_year year + 1 - 719163) * 86400 * 1000.
Proof.
  unfold year_start_ms.
  destruct (Z.leb_spec 1 year), (Z.leb_spec year 9999); simpl.
  - split; [intros [= <-]; split; [lia|done] | by intros [_ ->]].
  - split; [done | intros [? _]; lia].
  - split; [done | intros [? _]; lia].
  - split; [done | intros [? _]; lia].
Qed.


Lemma year_bounds_Ok year since until :
  _year_bounds_ms year = Ok (since, until)
  ↔ 1 ≤ year ≤ 9998 ∧ year_start_ms year = Ok since
    ∧ year_start_ms (year + 1) = Ok until.
Proof.
  unfold _year_bounds_ms. rewrite bind_Ok. split.
  - intros (s & Hs & H). apply bind_Ok in H as (u & Hu & [= <- <-]).
    apply year_start_ms_Ok in Hs as Hs'. apply year_start_ms_Ok in Hu as Hu'.
    split; [lia|done].
  - intros (_ & Hs & Hu). exists since. split; [done|]. by rewrite Hu.
Qed.


Lemma days_in_year year :
  days_before_year (year + 1) - days_before_year year
  = if is_leap year then 366 else 365.
Proof.
  unfold days_before_year, is_leap.
  replace (year + 1 - 1) with year by lia.
  destruct (Z.eqb_spec (year mod 4) 0), (Z.eqb_spec (year mod 100) 0),
    (Z.eqb_spec (year mod 400) 0); simpl;
    Z.to_euclidean_division_equations; lia.
Qed.

(** X2: the interval of a year is 365 days long, 366 in a leap year of the
    Gregorian calendar, and it ends where the interval of the next year
    starts. *)
Theorem year_bounds_length year since until :
  _year_bounds_ms year = Ok (since, until) →
  until - since = (if is_leap year then 366 else 365) * ms_per_day ∧
  since < until ∧
  (∀ since' until', _year_bounds_ms (year + 1) = Ok (since', until') →
     since' = until).
Proof.
  intros H. apply year_bounds_Ok in H as (Hy & Hs & Hu).
  apply year_start_ms_Ok in Hs as [_ ->].
  pose proof (days_in_year year) as Hd.
  assert (until - (days_before_year year + 1 - 719163) * 86400 * 1000
          = (if is_leap year then 366 else 365) * ms_per_day) as E.
  { apply year_start_ms_Ok in Hu as [_ ->]. unfold ms_per_day.
    destruct (is_leap year); lia. }
  split; [exact E|]. split.
  - unfold ms_per_day in E. destruct (is_leap year); lia.
  - intros s' u' H'. apply year_bounds_Ok in H' as (_ & Hs' & _). congruence.
Qed.

Lemma year_bounds_length_witness :
  _year_bounds_ms 2024 = Ok (1704067200000, 1735689600000) ∧
  1735689600000 - 1704067200000 = 366 * ms_per_day.
Proof.
  split; [reflexivity|].
  apply (year_bounds_length 2024 1704067200000 1735689600000 eq_refl).
Defined.

Lemma all_from_spec n z p :
  all_from n z p = true → ∀ k, z ≤ k < z + Z.of_nat n → p k = true.
Proof.
  revert z; induction n as [|n IH]; intros z; simpl; [lia|].
  intros H k Hk. apply andb_true_iff in H as [Hz Hrest].
  destruct (decide (k = z)) as [->|Hne]; [done|].
  apply (IH (z + 1)); [done|lia].
Qed.

Lemma year_ends_all : all_from (Z.to_nat 9998) 1 year_ends_ok = true.
Proof. vm_compute. reflexivity. Qed.

(** X3: the interval agrees with the calendar used for the histograms: its
    first millisecond is in January at hour 0, its last one in December at
    hour 23, and no timestamp inside it is out of the range of [datetime]. *)
Theorem year_bounds_calendar year since until :
  _year_bounds_ms year = Ok (since, until) →
  (∃ a b, utc_fields since = Ok a ∧ utc_fields (until - 1) = Ok b ∧
          month a = 1 ∧ hour a = 0 ∧ month b = 12 ∧ hour b = 23) ∧
  (∀ ts, since ≤ ts < until → ∃ d, utc_fields ts = Ok d).
Proof.
  intros H. pose proof H as H0. apply year_bounds_Ok in H0 as (Hy & _ & _).
  pose proof (all_from_spec _ _ _ year_ends_all year) as Hok.
  rewrite Z2Nat.id in Hok by lia. specialize (Hok ltac:(lia)).
  unfold year_ends_ok in Hok. rewrite H in Hok.
  destruct (utc_fields since) as [a| |] eqn:Ea; try done.
  destruct (utc_fields (until - 1)) as [b| |] eqn:Eb; try done.
  repeat (apply andb_true_iff in Hok as [Hok ?]).
  split.
  - exists a, b. repeat split; by apply Z.eqb_eq.
  - intros ts Hts. apply utc_fields_in_range.
    apply utc_fields_Ok_range in Ea, Eb. lia.
Qed.

Lemma year_bounds_calendar_witness :
  ∃ d, utc_fields 1736899200000 = Ok d.
Proof.
  destruct (year_bounds_calendar 2025 1735689600000 1767225600000 eq_refl)
    as [_ H].
  apply H. lia.
Defined.

(** ** The sample responses, evaluated *)

Lemma three_wins_run :
  run "alice" three_wins = Ok (stats_after "alice" three_wins).
Proof. vm_compute. reflexivity. Qed.

Lemma three_wins_state :
  ingest_all "alice" three_wins init_state = Ok (state_after "alice" three_wins).
Proof. vm_compute. reflexivity. Qed.

Lemma three_wins_finalize :
  finalize (state_after "alice" three_wins) = Ok (stats_after "alice" three_wins).
Proof. vm_compute. reflexivity. Qed.

Lemma streak_response_run :
  run "alice" streak_response = Ok (stats_after "alice" streak_response).
Proof. vm_compute. reflexivity. Qed.

Lemma gap_response_state :
  ingest_all "alice" gap_response init_state
  = Ok (state_after "alice" gap_response).
Proof. vm_compute. reflexivity. Qed.

Lemma gap_response_finalize :
  finalize (state_after "alice" gap_response)
  = Ok (stats_after "alice" gap_response).
Proof. vm_compute. reflexivity. Qed.

Lemma tied_wins_run :
  run "alice" tied_wins = Ok (stats_after "alice" tied_wins).
Proof. vm_compute. reflexivity. Qed.

(** ** Relations between the counters *)

Lemma count_snoc {A} (p : A → bool) l x :
  count p (l ++ [x]) = count p l + (if p x then 1 else 0).
Proof.
  induction l as [|y l IH]; simpl.
  - rewrite count_cons. unfold count; simpl. lia.
  - rewrite !count_cons, IH. lia.
Qed.

Lemma zsum_incr_at i (l : list Z) :
  0 ≤ i → (Z.to_nat i < length l)%nat → zsum (incr_at i l) = zsum l + 1.
Proof.
  intros _ Hlen. unfold incr_at. generalize dependent (Z.to_nat i).
  clear i. induction l as [|x l IH]; intros n Hn; simpl in Hn; [lia|].
  destruct n as [|n].
  - unfold zsum; simpl. lia.
  - pose proof (IH n ltac:(lia)) as H.
    change (zsum (x :: alter Z.succ n l) = zsum (x :: l) + 1).
    unfold zsum in *; simpl. lia.
Qed.

Lemma tally_cons {V} (g : V → Z) (m : gmap string V) n names :
  tally g m (n :: names) = default 0 (g <$> m !! n) + tally g m names.
Proof. reflexivity. Qed.

Lemma tally_alter {V} (g : V → Z) (f : V → V) (m : gmap string V) names k :
  NoDup names → (∀ x, g (f x) = g x + 1) → is_Some (m !! k) →
  tally g (alter f k m) names
  = tally g m names + (if bool_decide (k ∈ names) then 1 else 0).
Proof.
  intros Hnd Hg [x Hx].
  induction Hnd as [|n names Hn Hnd IH]; [done|].
  rewrite !tally_cons, IH, lookup_alter.
  destruct (decide (k = n)) as [->|Hne].
  - rewrite Hx; simpl. rewrite Hg.
    rewrite (bool_decide_eq_false_2 (n ∈ names)) by done.
    rewrite bool_decide_eq_true_2 by left. lia.
  - destruct (bool_decide_reflect (k ∈ names)) as [Hin|Hin].
    + rewrite bool_decide_eq_true_2 by (by right). lia.
    + rewrite bool_decide_eq_false_2; [lia|].
      intros [?|?]%elem_of_cons; done.
Qed.

Lemma hist_total_incr (m : gmap Z Z) k :
  hist_total (<[k := default 0 (m !! k) + 1]> m) = hist_total m + 1.
Proof.
  unfold hist_total.
  assert (∀ (j1 j2 : Z) (z1 z2 y : Z), z1 + (z2 + y) = z2 + (z1 + y)) as Hc
    by (intros; lia).
  destruct (m !! k) as [v|] eqn:E; simpl.
  - rewrite <- insert_delete_eq.
    rewrite map_fold_insert_L; [|by intros; apply Hc|by apply lookup_delete_eq].
    rewrite (map_fold_delete_L _ _ k v m); [lia|by intros; apply Hc|done].
  - rewrite map_fold_insert_L; [lia|by intros; apply Hc|done].
Qed.

Lemma bucket_spec r : bucket r mod 100 = 0 ∧ bucket r ≤ r < bucket r + 100.
Proof. unfold bucket. Z.to_euclidean_division_equations; lia. Qed.

Lemma NoDup_speed_names : NoDup speed_names.
Proof. by apply (bool_decide_unpack _). Qed.

Lemma NoDup_ending_names : NoDup ending_names.
Proof. by apply (bool_decide_unpack _). Qed.

Lemma ending_key_in (m : gmap string Z) status :
  (∀ k, is_Some (m !! k) ↔ k ∈ ending_names) →
  is_Some (m !! ending_key m status) ∧ ending_key m status ∈ ending_names.
Proof.
  intros Hwf. unfold ending_key.
  destruct (bool_decide_reflect (is_Some (m !! status))) as [H|H].
  - split; [done|]. by apply Hwf.
  - assert ("other"%string ∈ ending_names) as Hin
      by (by apply (bool_decide_unpack _)).
    split; [by apply Hwf|done].
Qed.

Lemma ending_alter (m : gmap string Z) k k' :
  is_Some (m !! k) →
  default 0 (alter Z.succ k m !! k')
  = default 0 (m !! k') + (if bool_decide (k = k') then 1 else 0).
Proof.
  intros [x Hx]. rewrite lookup_alter.
  destruct (decide (k = k')) as [->|Hne].
  - rewrite Hx; simpl. rewrite bool_decide_eq_true_2 by done. lia.
  - rewrite bool_decide_eq_false_2 by done. lia.
Qed.

Lemma is_flag_spec status :
  is_flag status = true ↔ status = "timeout"%string ∨ status = "outoftime"%string.
Proof.
  unfold is_flag. rewrite orb_true_iff, !String.eqb_eq. done.
Qed.

Lemma consistent_init : consistent init_state.
Proof.
  split; try done.
  - by intros [].
  - by intros [].
Qed.

Lemma consistent_count_line s : consistent s → consistent (count_line s).
Proof.
  intros [H1 H2 H3 H4 H5 H6 H7 H8 H9 H10 H11 H12 H13 H14 H15].
  split; try done; simpl.
  - lia.
  - change (results_sum (st s) ≤ total (st s) + 1). lia.
  - change (0 ≤ endings_sum (st s) ≤ total (st s) + 1). lia.
Qed.

(** The counters that a game moves, seen one by one. *)
Lemma update_results v s :
  ∀ o, get_count o (results (update_stats v s))
       = get_count o (results s)
         + (if bool_decide (outcome_of v = Some o) then 1 else 0).
Proof.
  intros o. simpl. destruct (outcome_of v) as [o'|]; [|simpl; lia].
  destruct o, o'; simpl; lia.
Qed.

Lemma update_color_results v s :
  ∀ o, get_count o (white (color_results (update_stats v s)))
       + get_count o (black (color_results (update_stats v s)))
       = get_count o (white (color_results s))
         + get_count o (black (color_results s))
         + (if bool_decide (outcome_of v = Some o) then 1 else 0).
Proof.
  intros o. simpl. unfold outcome_of.
  destruct (user_color v) as [c|]; simpl; [|lia].
  destruct c, o, (derive_outcome _ _ _); simpl; lia.
Qed.

Lemma outcome_of_Some v o : outcome_of v = Some o → is_Some (user_color v).
Proof. unfold outcome_of. destruct (user_color v); [eauto|done]. Qed.

Lemma results_sum_outcome v s :
  results_sum (update_stats v s)
  = results_sum s + match outcome_of v with Some _ => 1 | None => 0 end.
Proof.
  rewrite results_sum_update. unfold outcome_of.
  by destruct (user_color v).
Qed.

Lemma rated_outcome v r : rated v = Some r → is_Some (outcome_of v).
Proof.
  unfold rated, outcome_of. destruct (user_color v); [eauto|done].
Qed.

Lemma consistent_game ul game v s :
  read_game ul game = Ok v → wf (st s) → consistent s →
  consistent (update v (count_line s)).
Proof.
  intros Hv Hwf [H1 H2 H3 H4 H5 H6 H7 H8 H9 H10 H11 H12 H13 H14 H15].
  destruct Hwf as [Lm Lw Lh Ks Ke Kb _ _ _].
  assert (∀ n d, dt_obj v = Some (n, d) → utc_fields n = Ok d) as Hdt.
  { intros n d E.
    destruct (read_game_fields _ _ _ Hv) as (?&?&?&?&?&?&?&?&?&?&?&?&?&H).
    destruct (as_int (ts v)); [|congruence].
    destruct H as (d' & Hd & E'). congruence. }
  split;
    change (st (update v (count_line s)))
      with (update_stats v (st (count_line s))).
  - intros o. rewrite update_color_results, update_results.
    specialize (H1 o). simpl in *. lia.
  - intros o. rewrite update_results. specialize (H2 o).
    simpl. destruct (outcome_of v) as [o'|]; simpl.
    + rewrite count_snoc. unfold has at 2; simpl.
      destruct (decide (o' = o)) as [->|Hne].
      * rewrite !bool_decide_eq_true_2 by done. simpl in H2. lia.
      * rewrite !bool_decide_eq_false_2 by congruence. simpl in H2. lia.
    + simpl in H2. lia.
  - simpl. destruct (dt_obj v) as [[n d]|] eqn:E; [|done].
    destruct (utc_fields_bounds _ _ (Hdt _ _ eq_refl)) as (?&?&?).
    rewrite zsum_incr_at, length_app by lia. simpl. lia.
  - simpl. destruct (dt_obj v) as [[n d]|] eqn:E; [|done].
    destruct (utc_fields_bounds _ _ (Hdt _ _ eq_refl)) as (?&?&?).
    rewrite zsum_incr_at, length_app by lia. simpl. lia.
  - simpl. destruct (dt_obj v) as [[n d]|] eqn:E; [|done].
    destruct (utc_fields_bounds _ _ (Hdt _ _ eq_refl)) as (?&?&?).
    rewrite zsum_incr_at, length_app by lia. simpl. lia.
  - simpl. destruct (dt_obj v) as [[n d]|]; [|lia].
    rewrite length_app. simpl. lia.
  - simpl. destruct (rated v) as [r|]; [|done].
    intros k x. rewrite lookup_insert. case_decide as E.
    + subst k. intros [= <-]. split; [apply bucket_spec|].
      destruct (opponent_hist (st s) !! bucket r) as [y|] eqn:Ey; simpl; [|lia].
      destruct (H7 _ _ Ey). lia.
    + apply H7.
  - simpl. destruct (rated v) as [r|]; [|done].
    rewrite hist_total_incr. simpl in H8. lia.
  - unfold rated_by_speed in *. simpl.
    destruct (rated v) as [r|]; [|done].
    destruct (key_in (opponent_by_speed (st s)) (speed v)) as [k|] eqn:Ek;
      [|simpl in H9; lia].
    apply key_in_Some in Ek as [_ Hk].
    rewrite tally_alter; [|apply NoDup_speed_names|done|done].
    rewrite bool_decide_eq_true_2 by (by apply Kb). simpl in H9. lia.
  - rewrite results_sum_outcome.
    change (results_sum (st (count_line s))) with (results_sum (st s)).
    change (opponent_rating_count (update_stats v (st (count_line s))))
      with (match rated v with
            | Some _ => opponent_rating_count (st s) + 1
            | None => opponent_rating_count (st s)
            end).
    destruct (rated v) as [r|] eqn:Er.
    + destruct (rated_outcome _ _ Er) as [o ->]. lia.
    + destruct (outcome_of v); lia.
  - rewrite results_sum_outcome.
    change (results_sum (st (count_line s))) with (results_sum (st s)).
    change (total (update_stats v (st (count_line s)))) with (total (st s) + 1).
    destruct (outcome_of v); lia.
  - unfold endings_sum in *.
    change (total (update_stats v (st (count_line s)))) with (total (st s) + 1).
    simpl. destruct (String.eqb (status v) ""); [lia|].
    destruct (ending_key_in (endings (st s)) (status v) Ke) as [Hs Hin].
    rewrite tally_alter; [|apply NoDup_ending_names|done|done].
    rewrite bool_decide_eq_true_2 by done. lia.
  - pose proof (update_results v (st (count_line s)) Win) as E.
    simpl in E |- *.
    destruct (negb _ && _); [|destruct (outcome_of v) as [[]|]; simpl in *; lia].
    destruct (outcome_of v) as [[]|]; simpl in *; lia.
  - pose proof (update_results v (st (count_line s)) Loss) as E.
    simpl in E |- *.
    destruct (negb _ && _); [|destruct (outcome_of v) as [[]|]; simpl in *; lia].
    destruct (outcome_of v) as [[]|]; simpl in *; lia.
  - unfold ending in *. simpl.
    destruct (String.eqb (status v) "") eqn:Es; simpl.
    { destruct (outcome_of v) as [[]|]; lia. }
    destruct (ending_key_in (endings (st s)) (status v) Ke) as [Hs Hin].
    rewrite !ending_alter by done.
    destruct (is_flag (status v)) eqn:Ef.
    + apply is_flag_spec in Ef.
      assert (ending_key (endings (st s)) (status v) = status v) as ->.
      { unfold ending_key. rewrite bool_decide_eq_true_2; [done|].
        apply Ke. destruct Ef as [-> | ->]; by apply (bool_decide_unpack _). }
      destruct Ef as [-> | ->]; simpl;
        destruct (outcome_of v) as [[]|]; lia.
    + repeat case_bool_decide; destruct (outcome_of v) as [[]|]; lia.
Qed.

Lemma consistent_ingest ul l s s' :
  ingest ul l s = Ok s' → wf (st s) → consistent s → consistent s'.
Proof.
  intros H Hwf Hc.
  apply ingest_Ok in H as [[_ ->]|[[_ ->]|(g & v & _ & Hv & ->)]].
  - done.
  - by apply consistent_count_line.
  - by eapply consistent_game.
Qed.

Lemma consistent_reachable ul s : reachable ul s → consistent s.
Proof.
  intros [ls H].
  assert (∀ s0, wf (st s0) → consistent s0 →
            ingest_all ul ls s0 = Ok s → consistent s) as Hgen.
  { clear H. induction ls as [|l ls IH]; intros s0 Hwf Hc; simpl.
    - by intros [= <-].
    - intros H. apply bind_Ok in H as (s1 & H1 & H2).
      apply (IH s1); [by eapply wf_ingest|by eapply consistent_ingest|done]. }
  apply (Hgen init_state); [apply wf_init|apply consistent_init|done].
Qed.

(** What [run] returns is the dictionary of a state of the loop with the
    three fields of the last pass written. *)
Lemma run_state username ls r :
  run username ls = Ok r →
  ∃ ul s, str_lower username = Ok ul ∧ ingest_all ul ls init_state = Ok s ∧
    finalize s = Ok r ∧ reachable ul s ∧ consistent s ∧ wf (st s) ∧
    total r = total (st s) ∧ results r = results (st s) ∧
    color_results r = color_results (st s) ∧ endings r = endings (st s) ∧
    timeout_wins r = timeout_wins (st s) ∧
    timeout_losses r = timeout_losses (st s) ∧
    opponent_rating_count r = opponent_rating_count (st s) ∧
    opponent_by_speed r = opponent_by_speed (st s) ∧
    opponent_hist r = opponent_hist (st s) ∧ top_wins r = top_wins (st s) ∧
    month_counts r = month_counts (st s) ∧ wday_counts r = wday_counts (st s) ∧
    hour_counts r = hour_counts (st s).
Proof.
  intros H. apply run_Ok in H as (ul & s & Hul & Hs & Hr).
  assert (reachable ul s) as Hreach by (by exists ls).
  exists ul, s. repeat (split; [done|]).
  split; [by eapply consistent_reachable|].
  split; [by eapply reachable_wf|].
  apply finalize_Ok in Hr as (_ & _ & _ & _ & _ & _ & _ & Ht & Hsame).
  unfold same_but_total in Hsame; simpl in Hsame. tauto.
Qed.

(** X4: in the statistics returned, each of the three results is the sum of
    that result with white and with black. *)
Theorem color_results_split username ls r :
  run username ls = Ok r →
  ∀ o, get_count o (white (color_results r)) + get_count o (black (color_results r))
       = get_count o (results r).
Proof.
  intros H o.
  apply run_state in H
    as (ul & s & _ & _ & _ & _ & Hc & _ & _ & -> & -> & _).
  apply (co_colors _ Hc).
Qed.

Lemma color_results_split_witness :
  get_count Win (white (color_results (stats_after "alice" three_wins)))
  + get_count Win (black (color_results (stats_after "alice" three_wins))) = 3.
Proof.
  pose proof three_wins_run as Hrun.
  apply (color_results_split _ _ _ Hrun Win).
Defined.

(** X5: the month, weekday and hour histograms keep their 12, 7 and 24
    cells and have one and the same total: the number of games that carried
    an integer timestamp, which is the length of the timestamp buffer and
    at most [total]. *)
Theorem histograms_same_total username ul ls s r :
  str_lower username = Ok ul → ingest_all ul ls init_state = Ok s →
  finalize s = Ok r →
  length (month_counts r) = 12%nat ∧ length (wday_counts r) = 7%nat ∧
  length (hour_counts r) = 24%nat ∧
  zsum (month_counts r) = Z.of_nat (length (timestamps s)) ∧
  zsum (wday_counts r) = Z.of_nat (length (timestamps s)) ∧
  zsum (hour_counts r) = Z.of_nat (length (timestamps s)) ∧
  Z.of_nat (length (timestamps s)) ≤ total r.
Proof.
  intros Hul Hs Hr.
  assert (run username ls = Ok r) as H by (apply run_Ok; eauto).
  apply run_state in H
    as (ul' & s' & Hul' & Hs' & _ & _ & Hc & Hwf & -> & _ & _ & _ & _ & _ & _
        & _ & _ & _ & -> & -> & ->).
  rewrite Hul in Hul'. injection Hul' as <-.
  rewrite Hs in Hs'. injection Hs' as <-.
  destruct Hwf, Hc. repeat split; done.
Qed.

Lemma histograms_same_total_witness :
  zsum (month_counts (stats_after "alice" three_wins)) = 3 ∧
  zsum (hour_counts (stats_after "alice" three_wins)) = 3.
Proof.
  pose proof three_wins_finalize as Hf.
  destruct (histograms_same_total "alice" "alice" three_wins _ _
              eq_refl eq_refl Hf) as (_ & _ & _ & H1 & _ & H2 & _).
  split; [exact H1|exact H2].
Defined.



(** X7: the games counted per speed in [opponent_by_speed] are at most the
    rated games, these are at most the games with a result, and these are
    at most [total]. *)
Theorem rated_games_chain username ls r :
  run username ls = Ok r →
  0 ≤ rated_by_speed r ∧
  rated_by_speed r ≤ opponent_rating_count r ∧
  opponent_rating_count r ≤ results_sum r ∧
  results_sum r ≤ total r ∧
  (∀ k, is_Some (opponent_by_speed r !! k) ↔ k ∈ speed_names).
Proof.
  intros H.
  apply run_state in H
    as (ul & s & _ & _ & _ & _ & Hc & Hwf & -> & Hres & _ & _ & _ & _ & ->
        & Hb & _).
  unfold rated_by_speed, results_sum. rewrite Hb, Hres.
  destruct Hwf as [_ _ _ _ _ Kb _ _ _].
  pose proof (co_by_speed _ Hc) as H1. pose proof (co_rated _ Hc) as H2.
  pose proof (co_results _ Hc) as H3.
  unfold rated_by_speed, results_sum in *.
  repeat split; try lia; by apply Kb.
Qed.

Lemma rated_games_chain_witness :
  rated_by_speed (stats_after "alice" three_wins) = 3 ∧
  opponent_rating_count (stats_after "alice" three_wins) ≤ 3.
Proof.
  pose proof three_wins_run as Hrun.
  destruct (rated_games_chain _ _ _ Hrun) as (_ & _ & H & _).
  split; [reflexivity|exact H].
Defined.



(** X9: the wins on time are at most the wins and the losses on time at
    most the losses, and together they are at most the games that ended
    with the status "timeout" or "outoftime". *)
Theorem flag_counts_bounded username ls r :
  run username ls = Ok r →
  0 ≤ timeout_wins r ≤ win (results r) ∧
  0 ≤ timeout_losses r ≤ loss (results r) ∧
  timeout_wins r + timeout_losses r ≤ ending r "timeout" + ending r "outoftime".
Proof.
  intros H.
  apply run_state in H
    as (ul & s & _ & _ & _ & _ & Hc & _ & _ & -> & _ & He & -> & -> & _).
  unfold ending. rewrite He.
  pose proof (co_flag_wins _ Hc). pose proof (co_flag_losses _ Hc).
  pose proof (co_flags _ Hc) as H3. unfold ending in H3. done.
Qed.

Lemma flag_counts_bounded_witness :
  timeout_wins (stats_after "alice" three_wins) ≤ 3.
Proof.
  pose proof three_wins_run as Hrun.
  destruct (flag_counts_bounded _ _ _ Hrun) as ([_ H] & _). exact H.
Defined.

(** ** Bounds on the streaks and on the gap *)

Lemma count_perm {A} (p : A → bool) l l' : l ≡ₚ l' → count p l = count p l'.
Proof.
  induction 1 as [|x l l' _ IH|x y l|l1 l2 l3 _ IH1 _ IH2].
  - done.
  - rewrite !count_cons. lia.
  - rewrite !count_cons. lia.
  - congruence.
Qed.

Lemma count_fmap {A B} (f : A → B) (p : B → bool) l :
  count p (f <$> l) = count (λ x, p (f x)) l.
Proof.
  induction l as [|x l IH]; [done|].
  rewrite fmap_cons, !count_cons. by rewrite IH.
Qed.

Lemma count_app {A} (p : A → bool) l1 l2 :
  count p (l1 ++ l2) = count p l1 + count p l2.
Proof.
  induction l1 as [|x l1 IH]; simpl.
  - unfold count at 2; simpl. lia.
  - rewrite !count_cons, IH. lia.
Qed.

Lemma count_replicate (o : outcome) n :
  count (λ x, bool_decide (x = o)) (replicate n o) = Z.of_nat n.
Proof.
  induction n as [|n IH]; [done|].
  change (replicate (S n) o) with (o :: replicate n o).
  rewrite count_cons, IH, bool_decide_eq_true_2 by done. lia.
Qed.

Lemma has_run_count o n os :
  has_run o n os → Z.of_nat n ≤ count (λ x, bool_decide (x = o)) os.
Proof.
  intros (pre & post & ->). rewrite !count_app, count_replicate.
  assert (∀ l : list outcome, 0 ≤ count (λ x, bool_decide (x = o)) l) as Hnn
    by (intros; unfold count; lia).
  pose proof (Hnn pre). pose proof (Hnn post). lia.
Qed.

Lemma int_keys_snd tl l : int_keys tl = Some l → l.*2 = tl.*2.
Proof.
  revert l; induction tl as [|p tl IH]; intros l.
  - by intros [= <-].
  - rewrite int_keys_cons. destruct (as_int p.1); [|done].
    destruct (int_keys tl) as [k|]; [|done]. intros [= <-].
    rewrite !fmap_cons. simpl. f_equal. by apply IH.
Qed.

Lemma sorted_outcomes_outcomes tl os :
  sorted_outcomes tl = Ok os → os ≡ₚ tl.*2.
Proof.
  unfold sorted_outcomes. destruct (int_keys tl) as [l|] eqn:E.
  - intros [= <-]. rewrite <- (int_keys_snd _ _ E).
    apply fmap_Permutation, stable_sort_perm.
  - destruct (_ <=? _)%nat; [|done]. by intros [= <-].
Qed.

(** X10: the longest win streak is at most the number of wins, the longest
    loss streak at most the number of losses, and neither is negative. *)
Theorem streaks_bounded username ls r :
  run username ls = Ok r →
  0 ≤ longest_win_streak r ≤ win (results r) ∧
  0 ≤ longest_loss_streak r ≤ loss (results r).
Proof.
  intros H.
  apply run_state in H
    as (ul & s & _ & _ & Hf & _ & Hc & Hwf & _ & -> & _).
  apply finalize_Ok in Hf as (os & _ & Hos & _ & -> & -> & _).
  pose proof (co_timeline _ Hc Win) as Hw.
  pose proof (co_timeline _ Hc Loss) as Hl. simpl in Hw, Hl.
  assert (∀ o, 0 ≤ count (has o) (timeline s)) as Hnn
    by (intros; unfold count; lia).
  destruct (timeline s) as [|e tl] eqn:E.
  - rewrite (wf_win_streak _ Hwf), (wf_loss_streak _ Hwf).
    specialize (Hnn Win) as Hn1. specialize (Hnn Loss) as Hn2. lia.
  - rewrite <- E in *. clear E.
    destruct (walk_longest os) as [(? & Hr1 & _) (? & Hr2 & _)].
    apply has_run_count in Hr1, Hr2.
    pose proof (sorted_outcomes_outcomes _ _ Hos) as Hp.
    rewrite (count_perm _ _ _ Hp), count_fmap, Z2Nat.id in Hr1 by done.
    rewrite (count_perm _ _ _ Hp), count_fmap, Z2Nat.id in Hr2 by done.
    unfold has in Hw, Hl. lia.
Qed.

Lemma streaks_bounded_witness :
  longest_win_streak (stats_after "alice" streak_response)
  ≤ win (results (stats_after "alice" streak_response)).
Proof.
  pose proof streak_response_run as Hrun.
  destruct (streaks_bounded _ _ _ Hrun) as ([_ H] & _). exact H.
Defined.

Lemma sorted_lookup_le (l : list Z) i j x y :
  sorted_by Z.leb l → l !! i = Some x → l !! j = Some y → (i ≤ j)%nat → x ≤ y.
Proof.
  unfold sorted_by. intros Hs. revert i j.
  induction Hs as [|a l Hl IH Ha]; intros i j Hi Hj Hij; [done|].
  destruct i as [|i], j as [|j]; simpl in *.
  - injection Hi as <-. injection Hj as <-. lia.
  - injection Hi as <-. rewrite Forall_forall in Ha.
    apply Z.leb_le, Ha. by eapply list_elem_of_lookup_2.
  - lia.
  - apply (IH i j); [done..|lia].
Qed.

(** X11: [longest_gap_ms] is never negative; with two or more timestamps it
    is the distance between two recorded timestamps that have no recorded
    timestamp strictly between them. *)
Theorem longest_gap_between_neighbours ul s r :
  reachable ul s → finalize s = Ok r →
  0 ≤ longest_gap_ms r ∧
  ((2 ≤ length (timestamps s))%nat →
   ∃ a b, a ∈ timestamps s ∧ b ∈ timestamps s ∧ a ≤ b ∧
          longest_gap_ms r = b - a ∧
          ∀ t, t ∈ timestamps s → t ≤ a ∨ b ≤ t).
Proof.
  intros Hs H.
  apply finalize_Ok in H as (_ & gap & _ & Hgap & _ & _ & -> & _).
  pose proof (stable_sort_sorted Z.leb leb_total leb_trans (timestamps s))
    as Hsorted.
  pose proof (stable_sort_perm Z.leb (timestamps s)) as Hperm.
  fold (sort_asc (timestamps s)) in Hsorted, Hperm.
  destruct (Nat.ltb_spec 1 (length (timestamps s))) as [Hlen|Hlen].
  - destruct (py_max_gaps (sort_asc (timestamps s))) as (g & Hg & Hex & _).
    { unfold sort_asc. by rewrite stable_sort_length. }
    rewrite Hg in Hgap. injection Hgap as <-.
    destruct Hex as (i & a & b & Ha & Hb & ->).
    pose proof (sorted_lookup_le _ i (S i) a b Hsorted Ha Hb ltac:(lia)) as Hab.
    split; [lia|]. intros _. exists a, b.
    split; [rewrite <- Hperm; by eapply list_elem_of_lookup_2|].
    split; [rewrite <- Hperm; by eapply list_elem_of_lookup_2|].
    split; [done|]. split; [done|].
    intros t Ht. rewrite <- Hperm in Ht.
    apply list_elem_of_lookup in Ht as [j Hj].
    destruct (decide (j ≤ i)%nat).
    + left. by apply (sorted_lookup_le _ j i t a Hsorted).
    + right. apply (sorted_lookup_le _ (S i) j b t Hsorted); [done..|lia].
  - injection Hgap as <-. rewrite (wf_gap _ (reachable_wf _ _ Hs)).
    split; [done|]. lia.
Qed.

Lemma longest_gap_between_neighbours_witness :
  0 ≤ longest_gap_ms (stats_after "alice" gap_response).
Proof.
  assert (reachable "alice" (state_after "alice" gap_response)) as Hr
    by (exists gap_response; apply gap_response_state).
  pose proof gap_response_finalize as Hf.
  destruct (longest_gap_between_neighbours "alice" _ _ Hr Hf) as [H _].
  exact H.
Defined.

(** ** The retained wins are the best ones *)

(** X12: [top_wins] holds the three wins over the highest rated opponents,
    or all of them when there are fewer: every entry is a win of the
    subject over a rated opponent, and a win that is not retained is rated
    at most as high as every retained one. *)
Theorem top_wins_are_best username ul ls r :
  str_lower username = Ok ul → run username ls = Ok r →
  length (top_wins r) = (3 `min` length (wins_of ul ls))%nat ∧
  (∀ e, e ∈ top_wins r → e ∈ wins_of ul ls) ∧
  (∀ e x, e ∈ wins_of ul ls → e ∉ top_wins r → x ∈ top_wins r →
          rating_of e ≤ rating_of x).
Proof.
  intros Hul H.
  apply run_state in H
    as (ul' & s & Hul' & Hs & _ & _ & _ & _ & _ & _ & _ & _ & _ & _ & _ & _ & _
        & -> & _).
  rewrite Hul in Hul'. injection Hul' as <-.
  rewrite (top_wins_all _ _ _ Hs).
  pose proof (stable_sort_perm desc (wins_of ul ls)) as Hperm.
  pose proof (stable_sort_sorted desc desc_total desc_trans (wins_of ul ls))
    as Hsorted.
  fold (sort_desc (wins_of ul ls)) in Hperm, Hsorted.
  split; [|split].
  - rewrite length_take. by rewrite (Permutation_length Hperm).
  - intros e He. rewrite <- Hperm. by eapply subseteq_take.
  - intros e x He Hne Hx. rewrite <- Hperm in He.
    rewrite <- (take_drop 3 (sort_desc (wins_of ul ls))) in He, Hsorted.
    apply elem_of_app in He as [He|He]; [done|].
    unfold sorted_by in Hsorted.
    apply StronglySorted_app in Hsorted as (Hsorted & _ & _).
    specialize (Hsorted x e Hx He). unfold desc in Hsorted.
    by apply Z.leb_le in Hsorted.
Qed.

Lemma top_wins_are_best_witness :
  length (top_wins (stats_after "alice" tied_wins)) = 3%nat.
Proof.
  pose proof tied_wins_run as Hrun.
  destruct (top_wins_are_best "alice" "alice" tied_wins _ eq_refl Hrun)
    as (H & _).
  exact H.
Defined.

(** ** What decides the outcome *)

(** X13: the status of a game has no influence on the outcome: for a
    subject of either colour the outcome is a draw exactly when the recorded
    winner is neither "white" nor "black", whatever the status is, so that a
    game that was aborted without a winner counts as a draw. *)
Theorem outcome_ignores_status c winner status status' :
  derive_outcome c winner status = derive_outcome c winner status' ∧
  (derive_outcome c winner status = Draw
   ↔ winner ≠ JStr "white" ∧ winner ≠ JStr "black") ∧
  (derive_outcome c winner status = Win ↔ winner = JStr (color_name c)) ∧
  (derive_outcome c winner status = Loss
   ↔ winner = JStr (color_name (other_color c))).
Proof.
  assert (∀ x, eq_str winner x = true ↔ winner = JStr x) as Heq.
  { intros x. unfold eq_str. destruct winner; try (split; [done|congruence]).
    rewrite String.eqb_eq. split; congruence. }
  unfold derive_outcome.
  destruct (eq_str winner (color_name c)) eqn:E1.
  { apply Heq in E1 as ->.
    split; [done|]. repeat split; try done; destruct c; simpl; intuition congruence. }
  destruct (eq_str winner "white") eqn:E2.
  { apply Heq in E2 as ->. destruct c; simpl in *; [done|].
    split; [done|]. repeat split; try done; intuition congruence. }
  destruct (eq_str winner "black") eqn:E3.
  { apply Heq in E3 as ->. destruct c; simpl in *; [|done].
    split; [done|]. repeat split; try done; intuition congruence. }
  simpl.
  assert (winner ≠ JStr "white") by (intros ->; simpl in E2; done).
  assert (winner ≠ JStr "black") by (intros ->; simpl in E3; done).
  split; [by destruct (_ || _), (_ || _)|].
  destruct (_ || _); repeat split; try done; destruct c; simpl; congruence.
Qed.

(** ** Exceptions that end the run *)

Lemma ingest_all_raise ul pre l post s e :
  ingest_all ul pre init_state = Ok s → ingest ul l s = Raise e →
  ingest_all ul (pre ++ l :: post) init_state = Raise e.
Proof.
  intros Hpre Hl. rewrite ingest_all_app, Hpre. simpl. by rewrite Hl.
Qed.

Lemma run_raise username ul pre game post s e :
  str_lower username = Ok ul → ingest_all ul pre init_state = Ok s →
  read_game ul game = Raise e →
  run username (pre ++ Game game :: post) = Raise e.
Proof.
  intros Hul Hpre Hg. unfold run. rewrite Hul. simpl.
  rewrite (ingest_all_raise ul pre (Game game) post s e); [done..|].
  simpl. by rewrite Hg.
Qed.

(** X14: a line that is valid JSON but not an object (a number, a string, a
    list, [null]) is not skipped: the loop body raises [AttributeError] and
    the run ends without statistics, whatever the other lines are. *)
Theorem non_object_line_aborts username ul pre j post s :
  str_lower username = Ok ul → ingest_all ul pre init_state = Ok s →
  (∀ kvs, j ≠ JObj kvs) →
  ingest ul (Game j) s = Raise AttributeError ∧
  run username (pre ++ Game j :: post) = Raise AttributeError.
Proof.
  intros Hul Hpre Hj.
  assert (read_game ul j = Raise AttributeError) as Hr.
  { unfold read_game. destruct j; try done. by destruct (Hj kvs). }
  split; [simpl; by rewrite Hr|]. by eapply run_raise.
Qed.

Lemma non_object_line_aborts_witness :
  run "alice" (three_wins ++ Game (JArr []) :: three_wins) = Raise AttributeError.
Proof.
  pose proof three_wins_state as Hpre.
  apply (non_object_line_aborts "alice" "alice" three_wins (JArr []) three_wins
           _ eq_refl Hpre).
  intros kvs. discriminate.
Defined.

(** X15: a game whose timestamp is an integer outside the years 1 to 9999
    makes [datetime.fromtimestamp] raise, and the run ends without
    statistics. *)
Theorem timestamp_out_of_range_aborts username ul pre game post s created last n :
  str_lower username = Ok ul → ingest_all ul pre init_state = Ok s →
  dict_get game "createdAt" JNull = Ok created →
  dict_get game "lastMoveAt" JNull = Ok last →
  as_int (py_or created last) = Some n → ¬ (min_ms ≤ n ≤ max_ms) →
  run username (pre ++ Game game :: post) = Raise DateError.
Proof.
  intros Hul Hpre Hc Hl Hn Hrange. eapply run_raise; [done..|].
  unfold read_game. rewrite Hc. simpl. rewrite Hl. simpl. rewrite Hn.
  unfold utc_fields.
  destruct (Z.leb_spec min_ms n), (Z.leb_spec n max_ms); simpl; try done. lia.
Qed.

Lemma timestamp_out_of_range_aborts_witness :
  run "alice" [Game far_future_game] = Raise DateError.
Proof.
  apply (timestamp_out_of_range_aborts "alice" "alice" [] far_future_game []
           init_state (JInt 1000000000000000) JNull 1000000000000000
           eq_refl eq_refl eq_refl eq_refl eq_refl).
  unfold max_ms. lia.
Defined.

(** X16: a game whose speed is a list or an object cannot be looked up in
    [speed_counts]: the membership test raises [TypeError] and the run ends
    without statistics. *)
Theorem unhashable_speed_aborts username ul pre game post s created last speed :
  str_lower username = Ok ul → ingest_all ul pre init_state = Ok s →
  dict_get game "createdAt" JNull = Ok created →
  dict_get game "lastMoveAt" JNull = Ok last →
  (∀ n, as_int (py_or created last) = Some n → min_ms ≤ n ≤ max_ms) →
  dict_get game "speed" JNull = Ok speed → hashable speed = false →
  run username (pre ++ Game game :: post) = Raise TypeError.
Proof.
  intros Hul Hpre Hc Hl Hn Hs Hh. eapply run_raise; [done..|].
  unfold read_game. rewrite Hc. simpl. rewrite Hl. simpl.
  destruct (as_int (py_or created last)) as [n|] eqn:E.
  - destruct (utc_fields_in_range n (Hn n eq_refl)) as [d ->]. simpl.
    rewrite Hs. simpl. by rewrite Hh.
  - simpl. rewrite Hs. simpl. by rewrite Hh.
Qed.

Lemma unhashable_speed_aborts_witness :
  run "alice" [Game list_speed_game] = Raise TypeError.
Proof.
  apply (unhashable_speed_aborts "alice" "alice" [] list_speed_game []
           init_state JNull JNull (JArr [JStr "blitz"])
           eq_refl eq_refl eq_refl eq_refl); [|reflexivity..].
  intros n. discriminate.
Defined.

(** X18: an exception of the decoder other than the two that line 104
    catches leaves the loop on the first line that raises it: the run ends
    with that exception, whatever lines follow. *)
Theorem decoder_exception_escapes loads username ul pre raw post s e :
  str_lower username = Ok ul →
  ingest_all ul (read_line loads <$> pre) init_state = Ok s →
  Exists (λ c, c ∉ ascii_whitespace) (list_ascii_of_string raw) →
  loads raw = Escaped e →
  fetch_game_stats loads username (pre ++ raw :: post) = Raise e.
Proof.
  intros Hul Hpre Hb Hl. apply not_blank_spec in Hb.
  unfold fetch_game_stats, run. rewrite Hul. simpl.
  rewrite fmap_app, fmap_cons.
  rewrite (ingest_all_raise ul _ (read_line loads raw) _ s e); [done..|].
  unfold read_line. by rewrite Hb, Hl.
Qed.

Lemma decoder_exception_escapes_witness :
  fetch_game_stats sample_loads "alice" ["{}"; deep_line; "{}"]
  = Raise RecursionError.
Proof.
  apply (decoder_exception_escapes sample_loads "alice" "alice" ["{}"]
           deep_line ["{}"] (state_after "alice" [Game (JObj [])])
           RecursionError eq_refl eq_refl).
  - apply Exists_cons_hd. by apply (bool_decide_unpack _).
  - by vm_compute.
Defined.

(** ** A record without any of the fields that are read *)

Lemma dict_get_absent kvs k default :
  obj_get k kvs = None → dict_get (JObj kvs) k default = Ok default.
Proof. intros H. unfold dict_get. by rewrite H. Qed.

(** X17: "missing means absent": a game object that has none of the keys
    the loop body reads raises nothing; for a user name that is not empty
    it adds one to [total] and to [other_speeds] and changes nothing else.
    For the empty user name the empty player ids match, and the game is
    counted as a draw with white. *)
Theorem empty_record_counted ul kvs s :
  (∀ k, k ∈ read_keys → obj_get k kvs = None) →
  ∃ s', ingest ul (Game (JObj kvs)) s = Ok s' ∧
    total (st s') = total (st s) + 1 ∧
    other_speeds (st s') = other_speeds (st s) + 1 ∧
    timestamps s' = timestamps s ∧
    (ul ≠ ""%string →
       same_but_total_and_other (st s') (st s) ∧ timeline s' = timeline s) ∧
    (ul = ""%string →
       results (st s') = bump Draw (results (st s)) ∧
       color_results (st s') = bump_color White Draw (color_results (st s)) ∧
       timeline s' = timeline s ++ [(JInt 0, Draw)]).
Proof.
  intros Hk.
  assert (∀ k d, k ∈ read_keys → dict_get (JObj kvs) k d = Ok d) as Hget
    by (intros; by apply dict_get_absent, Hk).
  assert (read_game ul (JObj kvs)
          = Ok {| ts := JNull; dt_obj := None; speed := JNull;
                  user_color := if String.eqb "" ul then Some White else None;
                  status := ""; winner := JNull; opp_rating := JNull;
                  opp_name := JStr "?"; game_id := JNull |}) as Hr.
  { unfold read_game.
    simpl. rewrite !Hk by (by apply (bool_decide_unpack _)). simpl.
    by destruct ul. }
  eexists. split; [simpl; rewrite Hr; reflexivity|].
  split; [done|]. split; [done|]. split; [done|]. split.
  - intros Hne. apply String.eqb_neq in Hne. rewrite String.eqb_sym in Hne.
    rewrite Hne. by repeat split.
  - intros ->. simpl. by repeat split.
Qed.

Lemma empty_record_counted_witness :
  ∃ s', ingest "alice" (Game (JObj [])) init_state = Ok s' ∧
        total (st s') = 1 ∧ other_speeds (st s') = 1.
Proof.
  destruct (empty_record_counted "alice" [] init_state) as (s' & H1 & H2 & H3 & _).
  - intros k _. reflexivity.
  - exists s'. split; [exact H1|]. split; [exact H2|exact H3].
Defined.
